(** * Wi-Fi security tool: de-auth flood detector, rogue-AP classifier,
      trust store and block coordinator

    A shallow embedding of [DeauthDetection.py], [RogueAPDetection.py] and
    the block part of [MQTTHelper.py], with the properties the
    specification states about them; further on, of the callback registry
    of [MQTTHelper.py], of the password heuristic and the configuration
    reader of [PasswordAssessment.py] with the writer in [WiFiAPI.py], and
    of the scan reader of [ProtocolAssessment.py], with properties read off
    the code.

    Modelling conventions.
    - A Python [str] is a Rocq [string] holding its UTF-8 bytes.  Substring
      replacement, splitting on ":" and joining act on whole code points in
      both views.  [str.lower] is modelled on the ASCII letters, which is all
      a colon-separated hexadecimal address contains.
    - [time.time()] returns seconds as a float; the embedding takes the
      clock reading as an exact rational [Q] passed in by the caller, so the
      constants 30, 5 and 1 of the source appear unchanged.
    - The module-level dictionaries and sets are fields of explicit state
      records ([gmap], [gset]); a function that mutates them returns the new
      state together with the list of alerts it published. *)

From Stdlib Require Import QArith Lqa Ascii.
From Stdlib Require String.
From stdpp Require Import gmap strings list fin_maps sorting.

(** ** Rational clock comparisons *)

Definition Qlt_bool (x y : Q) : bool := negb (Qle_bool y x).

(** ** [collections.Counter] restricted to what the detector uses

    A [Counter] built from a list keeps its keys in first-insertion order;
    [most_common(1)] returns the first entry that carries the maximal
    count. *)

Fixpoint counter_incr (a : string) (c : list (string * nat)) : list (string * nat) :=
  match c with
  | [] => [(a, 1%nat)]
  | (k, n) :: c' =>
      if decide (k = a) then (k, S n) :: c' else (k, n) :: counter_incr a c'
  end.

Definition Counter (l : list string) : list (string * nat) :=
  foldl (fun c a => counter_incr a c) [] l.

Definition most_common_1 (c : list (string * nat)) : list (string * nat) :=
  match c with
  | [] => []
  | x :: c' => [foldl (fun best y => if (snd best <? snd y)%nat then y else best) x c']
  end.

(** ** MQTTHelper.py: the block coordinator *)

Module MQTTHelper.

(** Outcome of a call that may raise. *)
Inductive result (E A : Type) : Type :=
| Ok (a : A)
| Raise (e : E).
Arguments Ok {E A} a.
Arguments Raise {E A} e.

(** The de-auth frame built by [BlockRogueAP]:
    [RadioTap()/Dot11(addr1, addr2, addr3)/Dot11Deauth(reason=7)]. *)
Record DeauthFrame := {
  addr1 : string;
  addr2 : string;
  addr3 : string;
  reason : nat
}.

(** A block command as decoded from JSON: [Data.get] on each key. *)
Record BlockCommand := {
  target_bssid : option string;
  interface : option string;
  count : option nat
}.

Section Block.
(** The exception type of the injection primitive and the primitive
    itself, scapy's [sendp(Pkt, iface, count, inter=0.1)]: it returns
    normally ([None]) or raises. *)
Variable Exn : Type.
Variable sendp : DeauthFrame -> string -> nat -> option Exn.

(** [BlockRogueAP(RogueBSSID, Iface, Count)], with [now] the value
    [time.time()] returns after the frames were sent. *)
Definition BlockRogueAP (now : Q) (RogueBSSID Iface : string) (Count : nat)
    (BLOCKED_BSSIDS : gmap string Q) : result Exn unit * gmap string Q :=
  let Pkt := {| addr1 := "ff:ff:ff:ff:ff:ff";
                addr2 := RogueBSSID;
                addr3 := RogueBSSID;
                reason := 7 |} in
  match sendp Pkt Iface Count with
  | Some e => (Raise e, BLOCKED_BSSIDS)
  | None => (Ok tt, <[RogueBSSID := now]> BLOCKED_BSSIDS)
  end.

(** [BlockCallback(Data)]: defaults for the optional keys, and no action
    when [target_bssid] is missing or empty. *)
Definition BlockCallback (now : Q) (Data : BlockCommand)
    (BLOCKED_BSSIDS : gmap string Q) : result Exn unit * gmap string Q :=
  let TargetBSSID := target_bssid Data in
  let Iface := default "wlan1" (interface Data) in
  let Count := default 10%nat (count Data) in
  match TargetBSSID with
  | Some T =>
      if decide (T = "") then (Ok tt, BLOCKED_BSSIDS)
      else BlockRogueAP now T Iface Count BLOCKED_BSSIDS
  | None => (Ok tt, BLOCKED_BSSIDS)
  end.
End Block.

(** An injection primitive for the examples: it works on "wlan1" and
    raises on any other interface. *)
Definition example_sendp (Pkt : DeauthFrame) (Iface : string) (Count : nat)
    : option string :=
  if decide (Iface = "wlan1") then None else Some "No such device".

End MQTTHelper.

(** ** DeauthDetection.py: the flood detector *)

Module DeauthDetection.

Definition Threshold : nat := 15.
Definition TimeWindow : Q := 5.

(** A sniffed packet, as far as [DetectDeauth] looks at it:
    whether it has the [Dot11Deauth] layer, and then [addr1], [addr2]. *)
Inductive Packet :=
| Deauth (addr1 addr2 : string)
| OtherFrame.

(** The payload of [PublishDeauthAlert].  Its [timestamp] field is a
    formatting of a second clock reading and is left out. *)
Record Alert := {
  destination : string;
  frame_count : nat;
  max_frame_count : nat;
  most_frequent_attacker : string;
  spoofed : bool;
  time_window : Q
}.

(** The three module-level dictionaries. *)
Record State := {
  DeauthRecords : gmap string (list (Q * string));
  MaxDeauthCounts : gmap string nat;
  LastAlertTime : gmap string Q
}.

Definition initial : State :=
  {| DeauthRecords := ∅; MaxDeauthCounts := ∅; LastAlertTime := ∅ |}.

Definition PublishDeauthAlert (Destination : string) (Count : nat)
    (AttackerMAC : string) (MaxCount : nat) : Alert :=
  {| destination := Destination;
     frame_count := Count;
     max_frame_count := MaxCount;
     most_frequent_attacker := AttackerMAC;
     spoofed := true;
     time_window := TimeWindow |}.

(** [Attacker in BLOCKED_BSSIDS and (CurrentTime - BLOCKED_BSSIDS[Attacker] < 30)] *)
Definition recently_blocked (BLOCKED_BSSIDS : gmap string Q)
    (Attacker : string) (CurrentTime : Q) : bool :=
  match BLOCKED_BSSIDS !! Attacker with
  | Some T => Qlt_bool (CurrentTime - T) 30
  | None => false
  end.

(** [Destination not in LastAlertTime or
     (CurrentTime - LastAlertTime[Destination]) >= 1] *)
Definition alert_due (LastAlert : gmap string Q) (Destination : string)
    (CurrentTime : Q) : bool :=
  match LastAlert !! Destination with
  | None => true
  | Some L => Qle_bool 1 (CurrentTime - L)
  end.

(** [AttackerList], [MostCommon] and [AttackerMAC] of the threshold
    branch. *)
Definition most_frequent (Records : list (Q * string)) : string :=
  let AttackerList := map snd Records in
  let MostCommon := most_common_1 (Counter AttackerList) in
  match MostCommon with
  | (a, _) :: _ => a
  | [] => "Unknown"
  end.

(** The list comprehension that prunes a window. *)
Definition prune (CurrentTime : Q) (w : list (Q * string)) : list (Q * string) :=
  List.filter (fun e => Qle_bool (CurrentTime - fst e) TimeWindow) w.

Definition DetectDeauth (BLOCKED_BSSIDS : gmap string Q) (CurrentTime : Q)
    (Pkt : Packet) (st : State) : State * list Alert :=
  match Pkt with
  | OtherFrame => (st, [])
  | Deauth Destination Attacker =>
      if recently_blocked BLOCKED_BSSIDS Attacker CurrentTime then (st, [])
      else
        let Appended :=
          default [] (DeauthRecords st !! Destination) ++ [(CurrentTime, Attacker)] in
        let Records := prune CurrentTime Appended in
        let Count := length Records in
        let MaxCounts :=
          match MaxDeauthCounts st !! Destination with
          | None => <[Destination := Count]> (MaxDeauthCounts st)
          | Some m =>
              if (m <? Count)%nat then <[Destination := Count]> (MaxDeauthCounts st)
              else MaxDeauthCounts st
          end in
        let st1 := {| DeauthRecords := <[Destination := Records]> (DeauthRecords st);
                      MaxDeauthCounts := MaxCounts;
                      LastAlertTime := LastAlertTime st |} in
        if (Threshold <=? Count)%nat then
          let AttackerMAC := most_frequent Records in
          if alert_due (LastAlertTime st) Destination CurrentTime then
            ({| DeauthRecords := DeauthRecords st1;
                MaxDeauthCounts := MaxDeauthCounts st1;
                LastAlertTime := <[Destination := CurrentTime]> (LastAlertTime st) |},
             [PublishDeauthAlert Destination Count AttackerMAC
                (default 0%nat (MaxCounts !! Destination))])
          else (st1, [])
        else
          ({| DeauthRecords := DeauthRecords st1;
              MaxDeauthCounts := MaxDeauthCounts st1;
              LastAlertTime := delete Destination (LastAlertTime st) |}, [])
  end.

(** The sniffing loop applied to a finite trace of packets, each paired
    with the clock reading taken when it is handled. *)
Fixpoint run (BLOCKED_BSSIDS : gmap string Q) (frames : list (Q * Packet))
    (st : State) : State * list Alert :=
  match frames with
  | [] => (st, [])
  | (t, Pkt) :: rest =>
      let '(st1, a1) := DetectDeauth BLOCKED_BSSIDS t Pkt st in
      let '(st2, a2) := run BLOCKED_BSSIDS rest st1 in
      (st2, a1 ++ a2)
  end.

(** The window of a destination, empty when it has no record yet. *)
Definition window (D : string) (st : State) : list (Q * string) :=
  default [] (DeauthRecords st !! D).

(** The property that, at clock reading [t], every destination's window
    holds only entries of age at most [TimeWindow]. *)
Definition all_windows_fresh (t : Q) (st : State) : Prop :=
  forall D e, e ∈ window D st -> (t - fst e <= TimeWindow)%Q.

(** A burst of de-auth frames for [D] from [A] at the clock readings
    [ts], and the window entries they leave. *)
Definition burst (D A : string) (ts : list Q) : list (Q * Packet) :=
  map (fun t => (t, Deauth D A)) ts.

Definition stamped (A : string) (ts : list Q) : list (Q * string) :=
  map (fun t => (t, A)) ts.

(** The trace used against the one-alert reading of the burst property:
    fifteen frames a tenth of a second apart, then one at 3 s. *)
Definition spaced_burst : list Q :=
  [0; 1#10; 2#10; 3#10; 4#10; 5#10; 6#10; 7#10; 8#10; 9#10;
   10#10; 11#10; 12#10; 13#10; 14#10; 3]%Q.

End DeauthDetection.


(** ** Python string operations used by the classifier *)

(** [str.lower] on the ASCII letters. *)
Definition lower_ascii (c : ascii) : ascii :=
  let n := nat_of_ascii c in
  if ((65 <=? n) && (n <=? 90))%nat then ascii_of_nat (n + 32) else c.

Fixpoint lower (s : string) : string :=
  match s with
  | EmptyString => EmptyString
  | String c s' => String (lower_ascii c) (lower s')
  end.

(** [s.split(":")]: always at least one part. *)
Fixpoint split_colon (s : string) : list string :=
  match s with
  | EmptyString => [EmptyString]
  | String c s' =>
      if Ascii.eqb c ":" then EmptyString :: split_colon s'
      else match split_colon s' with
           | p :: ps => String c p :: ps
           | [] => [String c EmptyString]
           end
  end.

(** [sep.join(parts)] *)
Fixpoint join (sep : string) (parts : list string) : string :=
  match parts with
  | [] => EmptyString
  | p :: ps =>
      match ps with
      | [] => p
      | _ :: _ => p +:+ sep +:+ join sep ps
      end
  end.

(** [s.replace(old, new)] for a non-empty [old]: occurrences are replaced
    left to right without overlap; [skip] counts the characters of a matched
    occurrence still to be dropped. *)
Fixpoint replace_from (old new : string) (skip : nat) (s : string) : string :=
  match s with
  | EmptyString => EmptyString
  | String c s' =>
      match skip with
      | S k => replace_from old new k s'
      | O =>
          if String.prefix old s
          then new +:+ replace_from old new (String.length old - 1) s'
          else String c (replace_from old new 0 s')
      end
  end.

Definition replace (old new s : string) : string := replace_from old new 0 s.

(** The code points [str.isspace] accepts, by the length of their UTF-8
    encoding: U+0009..U+000D, U+001C..U+0020; U+0085, U+00A0; U+1680,
    U+2000..U+200A, U+2028, U+2029, U+202F, U+205F, U+3000. *)
Definition space1 (a : nat) : bool :=
  ((9 <=? a) && (a <=? 13) || (28 <=? a) && (a <=? 32))%nat.

Definition space2 (a b : nat) : bool :=
  ((a =? 194) && ((b =? 133) || (b =? 160)))%nat.

Definition space3 (a b c : nat) : bool :=
  ((a =? 225) && (b =? 154) && (c =? 128)
   || (a =? 226) && (b =? 128)
      && ((128 <=? c) && (c <=? 138) || (c =? 168) || (c =? 169) || (c =? 175))
   || (a =? 226) && (b =? 129) && (c =? 159)
   || (a =? 227) && (b =? 128) && (c =? 128))%nat.

(** Drop white space from the front of a byte list.  With [back = true] the
    list is read as a reversed string, so that the bytes of one code point
    come last byte first. *)
Fixpoint strip_front (back : bool) (l : list nat) : list nat :=
  match l with
  | [] => []
  | a :: l1 =>
      if space1 a then strip_front back l1
      else match l1 with
           | [] => l
           | b :: l2 =>
               if (if back then space2 b a else space2 a b) then strip_front back l2
               else match l2 with
                    | [] => l
                    | c :: l3 =>
                        if (if back then space3 c b a else space3 a b c)
                        then strip_front back l3
                        else l
                    end
           end
  end.

Definition bytes_of (s : string) : list nat :=
  map nat_of_ascii (String.list_ascii_of_string s).

Definition of_bytes (l : list nat) : string :=
  String.string_of_list_ascii (map ascii_of_nat l).

(** [s.strip()] *)
Definition strip (s : string) : string :=
  of_bytes (rev (strip_front true (rev (strip_front false (bytes_of s))))).

(** ** RogueAPDetection.py: trust store and AP classifier *)

Module RogueAPDetection.

(** The first argument of the first [replace] as the source file holds it:
    the code points U+00E2 U+20AC U+2122, in UTF-8. *)
Definition apostrophe_pattern : string :=
  of_bytes [195; 162; 226; 130; 172; 226; 132; 162]%nat.

Definition NormaliseSSID (SSID : string) : string :=
  strip (replace (String "000"%char EmptyString) "" (replace apostrophe_pattern "'" SSID)).

Definition GetPrefix (BSSID : string) : string :=
  let parts := split_colon BSSID in
  if (3 <=? length parts)%nat then lower (join ":" (take 3 parts))
  else lower BSSID.

(** The payloads handed to [PublishAlert]. *)
Inductive Alert :=
| RoguePersonal (ssid detected_bssid : string) (expected : list string)
| RoguePublic (ssid detected_bssid detected_prefix : string)
    (expected_prefixes : list string)
| UnrecognisedAps (ssids : list string).

Definition alert_type (a : Alert) : string :=
  match a with
  | RoguePersonal _ _ _ | RoguePublic _ _ _ _ => "rogue_ap"
  | UnrecognisedAps _ => "unrecognised_aps"
  end.

Definition network_type (a : Alert) : option string :=
  match a with
  | RoguePersonal _ _ _ => Some "personal"
  | RoguePublic _ _ _ _ => Some "public"
  | UnrecognisedAps _ => None
  end.

(** The (ssid, detected_bssid) pair a rogue alert is about. *)
Definition rogue_pair (a : Alert) : option (string * string) :=
  match a with
  | RoguePersonal s b _ | RoguePublic s b _ _ => Some (s, b)
  | UnrecognisedAps _ => None
  end.

(** The two trust dictionaries and the two module-level sets. *)
Record State := {
  PersonalTrusted : gmap string (list string);
  PublicTrusted : gmap string (list string);
  AlertedRogues : gset (string * string);
  UnrecognisedSSIDs : gset string
}.

Definition initial : State :=
  {| PersonalTrusted := ∅; PublicTrusted := ∅;
     AlertedRogues := ∅; UnrecognisedSSIDs := ∅ |}.

(** A decoded trust-update command: each key may be absent. *)
Record TrustUpdate := {
  personal : option (gmap string (list string));
  public : option (gmap string (list string))
}.

Definition UpdateTrustedCallback (Data : TrustUpdate) (st : State) : State :=
  let st1 :=
    match personal Data with
    | Some p =>
        {| PersonalTrusted := (fun v => map lower v) <$> p;
           PublicTrusted := PublicTrusted st;
           AlertedRogues := AlertedRogues st;
           UnrecognisedSSIDs := UnrecognisedSSIDs st |}
    | None => st
    end in
  match public Data with
  | Some p =>
      {| PersonalTrusted := PersonalTrusted st1;
         PublicTrusted := (fun v => map GetPrefix v) <$> p;
         AlertedRogues := AlertedRogues st1;
         UnrecognisedSSIDs := UnrecognisedSSIDs st1 |}
  | None => st1
  end.

(** A sniffed packet as [DetectRogue] sees it: a beacon carries the text
    its SSID element decodes to ([None] when reading or decoding it
    raises) and its [addr2]. *)
Inductive Packet :=
| Beacon (info : option string) (addr2 : string)
| OtherFrame.

Definition add_alerted (p : string * string) (st : State) : State :=
  {| PersonalTrusted := PersonalTrusted st;
     PublicTrusted := PublicTrusted st;
     AlertedRogues := {[p]} ∪ AlertedRogues st;
     UnrecognisedSSIDs := UnrecognisedSSIDs st |}.

Definition add_unrecognised (s : string) (st : State) : State :=
  {| PersonalTrusted := PersonalTrusted st;
     PublicTrusted := PublicTrusted st;
     AlertedRogues := AlertedRogues st;
     UnrecognisedSSIDs := {[s]} ∪ UnrecognisedSSIDs st |}.

(** The [try] block at the head of [DetectRogue]. *)
Definition beacon_ssid (info : option string) : string :=
  match info with
  | Some SSIDRaw => NormaliseSSID SSIDRaw
  | None => "<unknown>"
  end.

Definition DetectRogue (Pkt : Packet) (st : State) : State * list Alert :=
  match Pkt with
  | OtherFrame => (st, [])
  | Beacon info addr2 =>
      let SSID := beacon_ssid info in
      let BSSID := lower addr2 in
      match PersonalTrusted st !! SSID with
      | Some AllowedBSSIDs =>
          if decide (BSSID ∈ AllowedBSSIDs) then (st, [])
          else if decide ((SSID, BSSID) ∈ AlertedRogues st) then (st, [])
          else (add_alerted (SSID, BSSID) st,
                [RoguePersonal SSID BSSID AllowedBSSIDs])
      | None =>
          match PublicTrusted st !! SSID with
          | Some AllowedPrefixes =>
              let DetectedPrefix := GetPrefix BSSID in
              if decide (DetectedPrefix ∈ AllowedPrefixes) then (st, [])
              else if decide ((SSID, BSSID) ∈ AlertedRogues st) then (st, [])
              else (add_alerted (SSID, BSSID) st,
                    [RoguePublic SSID BSSID DetectedPrefix AllowedPrefixes])
          | None =>
              let CleanSSID := NormaliseSSID SSID in
              if decide (CleanSSID = "") then (st, [])
              else (add_unrecognised CleanSSID st, [])
          end
      end
  end.

(** What reaches the classifier state, in the order it is applied: a
    sniffed packet, or a trust-update command delivered by the bus. *)
Inductive Event :=
| Sniffed (Pkt : Packet)
| Command (Data : TrustUpdate).

Definition step (e : Event) (st : State) : State * list Alert :=
  match e with
  | Sniffed Pkt => DetectRogue Pkt st
  | Command Data => (UpdateTrustedCallback Data st, [])
  end.

Fixpoint run (events : list Event) (st : State) : State * list Alert :=
  match events with
  | [] => (st, [])
  | e :: rest =>
      let '(st1, a1) := step e st in
      let '(st2, a2) := run rest st1 in
      (st2, a1 ++ a2)
  end.

(** How [sniff] ends: it returns, it is interrupted from the keyboard, or
    it raises another exception (then [sys.exit(1)] skips the flush). *)
Inductive SniffEnd :=
| Returned
| KeyboardInterrupt
| Failed.

(** [list(UnrecognisedSSIDs)] enumerates the set in the order of its hash
    table, which the set's contents do not determine: the order is an
    input, constrained to be an enumeration of the set. *)
Definition enumerates (listing : list string) (X : gset string) : Prop :=
  listing ≡ₚ elements X.

(** The code after the [try] block of [StartSniffing]. *)
Definition flush (listing : list string) (st : State) : list Alert :=
  if decide (UnrecognisedSSIDs st = ∅) then []
  else [UnrecognisedAps listing].

Definition StartSniffing (events : list Event) (ending : SniffEnd)
    (listing : list string) (st : State) : list Alert :=
  let '(st1, alerts) := run events st in
  match ending with
  | Failed => alerts
  | Returned | KeyboardInterrupt => alerts ++ flush listing st1
  end.

(** The rogue alerts of a trace that are about the pair [p]. *)
Definition alerts_for (p : string * string) (l : list Alert) : list Alert :=
  List.filter (fun a => bool_decide (rogue_pair a = Some p)) l.

(** The [unrecognised_aps] alerts of a trace. *)
Definition batch_alerts (l : list Alert) : list Alert :=
  List.filter (fun a => bool_decide (alert_type a = "unrecognised_aps")) l.

(** Python orders strings by code point, which on UTF-8 is the order of
    the bytes. *)
Definition str_le (s1 s2 : string) : Prop := String.leb s1 s2 = true.

(** The trust store of the specification's examples, as the update command
    installs it. *)
Definition example_trust : State :=
  UpdateTrustedCallback
    {| personal := Some {[ "HomeNet" := ["aa:bb:cc:dd:ee:ff"] ]};
       public := Some {[ "CafeWifi" := ["11:22:33:00:00:01"] ]} |}
    initial.

(** Two beacons of networks that no trust mapping knows. *)
Definition two_unknown : list Event :=
  [Sniffed (Beacon (Some "Unknown1") "02:00:00:00:00:0a");
   Sniffed (Beacon (Some "Unknown2") "02:00:00:00:00:0b")].

End RogueAPDetection.


(** ** Observations on the flood detector used by further properties *)

Module DeauthObservations.
Import DeauthDetection.

(** How often the address [x] occurs in [l]. *)
Definition occurrences (x : string) (l : list string) : nat :=
  length (List.filter (fun y => bool_decide (y = x)) l).

(** The count a [Counter] holds for a key, zero for a missing key. *)
Definition counter_get (k : string) (c : list (string * nat)) : nat :=
  match List.find (fun p => bool_decide (fst p = k)) c with
  | Some p => snd p
  | None => 0%nat
  end.

(** What the dictionaries hold for one destination. *)
Definition view (D : string) (st : State) : option (list (Q * string)) * option nat * option Q :=
  (DeauthRecords st !! D, MaxDeauthCounts st !! D, LastAlertTime st !! D).

(** The frames of a trace that carry a de-auth for [D], and the alerts of
    a trace that are about [D]. *)
Definition frame_for (D : string) (f : Q * Packet) : bool :=
  match snd f with
  | Deauth d _ => bool_decide (d = D)
  | OtherFrame => false
  end.

Definition alerts_to (D : string) (l : list Alert) : list Alert :=
  List.filter (fun a => bool_decide (destination a = D)) l.


(** In every window, no entry is more than [TimeWindow] older than the
    newest (last) entry. *)
Definition window_span_ok (st : State) : Prop :=
  forall D t_last a_last e,
    last (window D st) = Some (t_last, a_last) ->
    e ∈ window D st -> (t_last - fst e <= TimeWindow)%Q.


(** A trace that raises one alert: two frames at 0 s and thirteen at
    4.5 s. *)
Definition alerted_trace : list (Q * Packet) :=
  burst "02:00:00:00:00:01" "66:77:88:99:aa:bb"
    ([0; 0]%Q ++ replicate 13 (45#10)%Q).

(** The state before the last frame of that trace, the frame, and the
    alert it raises. *)
Definition before_alert : State := fst (run ∅ (take 14 alerted_trace) initial).

Definition alert_frame : Packet := Deauth "02:00:00:00:00:01" "66:77:88:99:aa:bb".

Definition the_alert : Alert :=
  PublishDeauthAlert "02:00:00:00:00:01" 15 "66:77:88:99:aa:bb" 15.

(** A trace with frames for two destinations and a beacon in between. *)
Definition mixed_trace : list (Q * Packet) :=
  [(0%Q, Deauth "02:00:00:00:00:01" "66:77:88:99:aa:bb");
   (1%Q, Deauth "02:00:00:00:00:02" "66:77:88:99:aa:cc");
   (2%Q, OtherFrame);
   (3%Q, Deauth "02:00:00:00:00:01" "66:77:88:99:aa:cc")].

End DeauthObservations.

(** ** Observations on strings and on the trust store used by further
    properties *)

Module RogueObservations.
Import RogueAPDetection.

(** A string without the separator ":". *)
Definition colon_free (s : string) : Prop :=
  ~ In ":"%char (String.list_ascii_of_string s).

(** A string that holds the character U+0000. *)
Definition has_nul (s : string) : Prop :=
  In "000"%char (String.list_ascii_of_string s).

(** Whether [old] occurs in [s] as a substring. *)
Fixpoint occurs (old s : string) : bool :=
  String.prefix old s
  || match s with
     | EmptyString => false
     | String _ s' => occurs old s'
     end.

(** An SSID in the form the classifier records: not empty, without
    U+0000, unchanged by [strip]. *)
Definition canonical_ssid (s : string) : Prop :=
  s <> "" /\ ~ has_nul s /\ strip s = s.

(** The update that has the same effect as [U1] followed by [U2]: for each
    mapping, the one [U2] carries if it carries one, else the one of [U1]. *)
Definition later_wins (U1 U2 : TrustUpdate) : TrustUpdate :=
  {| personal := match personal U2 with Some p => Some p | None => personal U1 end;
     public := match public U2 with Some p => Some p | None => public U1 end |}.

(** The beacon of the home-network example: the trusted SSID from an
    address that differs in the last octet. *)
Definition home_rogue : Packet := Beacon (Some "HomeNet") "AA:BB:CC:DD:EE:00".

(** Whether a byte list begins with the encoding of a white-space
    character, read as [strip_front] reads it. *)
Definition starts_space (back : bool) (l : list nat) : bool :=
  match l with
  | [] => false
  | a :: l1 =>
      space1 a
      || match l1 with
         | [] => false
         | b :: l2 =>
             (if back then space2 b a else space2 a b)
             || match l2 with
                | [] => false
                | c :: _ => if back then space3 c b a else space3 a b c
                end
         end
  end.

(** The bytes [strip] keeps. *)
Definition strip_bytes (l : list nat) : list nat :=
  rev (strip_front true (rev (strip_front false l))).

End RogueObservations.

(** ** PasswordAssessment.py: the password heuristic *)

Module PasswordAssessment.

(** [len(PSK)] counts code points: the bytes of the UTF-8 encoding that are
    not continuation bytes (0x80..0xBF). *)
Definition py_len (s : string) : nat :=
  length (List.filter (fun n => negb ((128 <=? n) && (n <=? 191))%nat) (bytes_of s)).

(** [re.search] with a character class: some character of the string lies
    in the class.  The classes of the source hold ASCII characters only. *)
Definition search_class (class : nat -> bool) (s : string) : bool :=
  existsb class (bytes_of s).

Definition lowercase_class (n : nat) : bool := ((97 <=? n) && (n <=? 122))%nat.
Definition uppercase_class (n : nat) : bool := ((65 <=? n) && (n <=? 90))%nat.
Definition ascii_digit_class (n : nat) : bool := ((48 <=? n) && (n <=? 57))%nat.

(** The class of the last search, by character code: the double quote and
    the characters ! @ # $ % ^ & * ( ) , . ? : { } | < >. *)
Definition special_class (n : nat) : bool :=
  bool_decide (n ∈ [33; 64; 35; 36; 37; 94; 38; 42; 40; 41; 44; 46; 63; 34; 58;
                    123; 125; 124; 60; 62]%nat).

Section Assess.
(** On a [str] pattern [\d] also matches the decimal digits of other
    scripts; which characters those are is a table of the Unicode database,
    taken here as a parameter: whether the string holds a decimal digit
    outside ASCII. *)
Variable other_digit : string -> bool.

Definition search_digit (s : string) : bool :=
  search_class ascii_digit_class s || other_digit s.

Definition AssessComplexity (PSK : string) : string * list string :=
  let Score := 0%nat in
  let Recommendations := [] in
  (* Check length. *)
  let '(Score, Recommendations) :=
    if (16 <=? py_len PSK)%nat then ((Score + 2)%nat, Recommendations)
    else if (12 <=? py_len PSK)%nat then ((Score + 1)%nat, Recommendations)
    else (Score,
          Recommendations
            ++ ["Increase password length (at least 12–16 characters)."]) in
  (* Check for lowercase letters. *)
  let '(Score, Recommendations) :=
    if search_class lowercase_class PSK then ((Score + 1)%nat, Recommendations)
    else (Score, Recommendations ++ ["Include lowercase letters."]) in
  (* Check for uppercase letters. *)
  let '(Score, Recommendations) :=
    if search_class uppercase_class PSK then ((Score + 1)%nat, Recommendations)
    else (Score, Recommendations ++ ["Include uppercase letters."]) in
  (* Check for digits. *)
  let '(Score, Recommendations) :=
    if search_digit PSK then ((Score + 1)%nat, Recommendations)
    else (Score, Recommendations ++ ["Include numbers."]) in
  (* Check for special characters. *)
  let '(Score, Recommendations) :=
    if search_class special_class PSK then ((Score + 1)%nat, Recommendations)
    else (Score, Recommendations ++ ["Include special characters (e.g., !@#$%^&*)."]) in
  let Strength :=
    if (6 <=? Score)%nat then "Strong"
    else if (4 <=? Score)%nat then "Moderate"
    else "Weak" in
  (Strength, Recommendations).

(** All four character classes occur in the string. *)
Definition all_classes (PSK : string) : bool :=
  search_class lowercase_class PSK && search_class uppercase_class PSK
  && search_digit PSK && search_class special_class PSK.

End Assess.

(** The table parameter that knows no digit outside ASCII. *)
Definition no_other_digit (s : string) : bool := false.

End PasswordAssessment.

(** ** The Wi-Fi configuration file: written by WiFiAPI.py, read by
    PasswordAssessment.py *)

Module WiFiConfig.

Definition LF : ascii := "010"%char.
Definition CR : ascii := "013"%char.

(** The part of [ConfigureWiFi] that decides what is written to the
    configuration file: the check of the two credentials, the
    normalisation of the SSID (U+2019 becomes an apostrophe, then [strip])
    and the text [f"ssid={ssid}\npassword={password}\n"].  [None] stands for
    the 400 answer, after which nothing is written. *)
Definition curly_apostrophe : string := of_bytes [226; 128; 153]%nat.

Definition config_text (ssid password : string) : string :=
  "ssid=" +:+ ssid +:+ String LF ("password=" +:+ password +:+ String LF EmptyString).

Definition ConfigureWiFi_file (ssid password : option string) : option string :=
  match ssid, password with
  | Some s, Some p =>
      if decide (s = "") then None
      else if decide (p = "") then None
      else Some (config_text (strip (replace curly_apostrophe "'" s)) p)
  | _, _ => None
  end.

(** Iterating over a file opened in text mode: lines end at a line feed,
    which they keep; a carriage return, alone or followed by a line feed,
    is read as a line feed.  [after_cr] tells that the previous character
    was a carriage return; [cur] is the current line, reversed. *)
Fixpoint split_lines (after_cr : bool) (cur : list ascii) (l : list ascii)
    : list (list ascii) :=
  match l with
  | [] => match cur with [] => [] | _ :: _ => [rev cur] end
  | c :: l' =>
      if Ascii.eqb c LF then
        if after_cr then split_lines false cur l'
        else rev (LF :: cur) :: split_lines false [] l'
      else if Ascii.eqb c CR then rev (LF :: cur) :: split_lines true [] l'
      else split_lines false (c :: cur) l'
  end.

Definition file_lines (content : string) : list string :=
  map String.string_of_list_ascii
    (split_lines false [] (String.list_ascii_of_string content)).

(** [Line.split("=", 1)[1]]: what follows the first "="; [None] when there
    is none (an [IndexError] in the source). *)
Fixpoint after_first_eq (s : string) : option string :=
  match s with
  | EmptyString => None
  | String c s' => if Ascii.eqb c "=" then Some s' else after_first_eq s'
  end.

(** The loop body of [ReadWiFiConfig] on one line. *)
Definition read_line (acc : option string * option string) (Line : string)
    : option string * option string :=
  let '(SSID, PSK) := acc in
  let Line := strip Line in
  if String.prefix "ssid=" Line then
    match after_first_eq Line with
    | Some v => (Some v, PSK)
    | None => acc
    end
  else if String.prefix "password=" Line then
    match after_first_eq Line with
    | Some v => (SSID, Some v)
    | None => acc
    end
  else acc.

(** [ReadWiFiConfig]: the argument is the content of the file, [None] when
    the file does not exist; the result is [None] where the source calls
    [sys.exit(1)]. *)
Definition ReadWiFiConfig (file : option string) : option (string * string) :=
  match file with
  | None => None
  | Some content =>
      match foldl read_line (None, None) (file_lines content) with
      | (Some SSID, Some PSK) =>
          if decide (SSID = "") then None
          else if decide (PSK = "") then None
          else Some (SSID, PSK)
      | _ => None
      end
  end.

(** [s.rstrip()], and a string without line terminators. *)
Definition rstrip (s : string) : string :=
  of_bytes (rev (strip_front true (rev (bytes_of s)))).

Definition one_line (s : string) : Prop :=
  ~ In LF (String.list_ascii_of_string s) /\ ~ In CR (String.list_ascii_of_string s).

(** A byte list that the white-space tests of a reversed string cannot
    reach into: ASCII bytes, the first of which is no white space. *)
Definition solid (m : list nat) : Prop :=
  Forall (fun n => (n < 128)%nat) m
  /\ match m with [] => False | a :: _ => space1 a = false end.

End WiFiConfig.

(** ** MQTTHelper.py: registering callbacks and dispatching messages *)

Module MQTTDispatch.

(** The callbacks the repository registers. *)
Inductive Callback :=
| CbBlock
| CbRunAssessment
| CbUpdateTrusted.

(** The attributes of the helper that dispatching uses.  [Callbacks] is a
    dictionary, kept in insertion order; [SubscribedTopics] exists only once
    [OnConnect] has created it; [client_subscriptions] lists the topics
    handed to [Client.subscribe], oldest first. *)
Record Helper := {
  Callbacks : list (string * Callback);
  SubscribedTopics : option (gset string);
  client_subscriptions : list string
}.

(** [d[k] = v] and [d.get(k)] on an insertion-ordered dictionary. *)
Fixpoint dict_set (k : string) (v : Callback) (d : list (string * Callback))
    : list (string * Callback) :=
  match d with
  | [] => [(k, v)]
  | (k', v') :: d' =>
      if decide (k' = k) then (k', v) :: d' else (k', v') :: dict_set k v d'
  end.

Fixpoint dict_get (k : string) (d : list (string * Callback)) : option Callback :=
  match d with
  | [] => None
  | (k', v') :: d' => if decide (k' = k) then Some v' else dict_get k d'
  end.

Definition subscribe (Topic : string) (Cb : Callback) (h : Helper) : Helper :=
  {| Callbacks := dict_set Topic Cb (Callbacks h);
     SubscribedTopics := SubscribedTopics h;
     client_subscriptions := client_subscriptions h ++ [Topic] |}.

(** [__init__], and the helper once RogueAPDetection.py has been imported,
    which registers the trust-update callback. *)
Definition init : Helper :=
  subscribe "commands/run_assessment" CbRunAssessment
    (subscribe "commands/block" CbBlock
       {| Callbacks := []; SubscribedTopics := None; client_subscriptions := [] |}).

Definition started : Helper := subscribe "commands/update_trusted" CbUpdateTrusted init.



Section Messages.
(** Decoded JSON values and [json.loads], [None] standing for
    [JSONDecodeError]. *)
Variable Json : Type.
Variable loads : string -> option Json.

(** What a callback receives: the decoded value, or the payload text when
    it is not JSON. *)
Definition message_data (Payload : string) : Json + string :=
  match loads Payload with
  | Some Data => inl Data
  | None => inr Payload
  end.

(** [OnMessage]: the callback called and its argument, [None] when the
    topic has no callback. *)
Definition OnMessage (topic Payload : string) (h : Helper)
    : option (Callback * (Json + string)) :=
  match dict_get topic (Callbacks h) with
  | Some Cb => Some (Cb, message_data Payload)
  | None => None
  end.
End Messages.

End MQTTDispatch.

(** ** ProtocolAssessment.py: reading the scan output *)

Module ProtocolAssessment.

Definition hex_digit (n : nat) : bool :=
  ((48 <=? n) && (n <=? 57) || (65 <=? n) && (n <=? 70) || (97 <=? n) && (n <=? 102))%nat.

(** Six pairs of hexadecimal digits separated by colons. *)
Definition mac_shape (l : list nat) : bool :=
  match l with
  | [a1; a2; c1; b1; b2; c2; d1; d2; c3; e1; e2; c4; f1; f2; c5; g1; g2] =>
      forallb hex_digit [a1; a2; b1; b2; d1; d2; e1; e2; f1; f2; g1; g2]
      && forallb (Nat.eqb 58) [c1; c2; c3; c4; c5]
  | _ => false
  end.

(** [MacRegex.match]: the pattern is anchored at both ends, and its final
    anchor also accepts one line feed after the address. *)
Definition MacRegex_match (s : string) : bool :=
  mac_shape (bytes_of s)
  || match rev (bytes_of s) with
     | 10%nat :: r => mac_shape (rev r)
     | _ => false
     end.

Record NetworkInfo := {
  Privacy : string;
  Cipher : string;
  Authentication : string
}.

(** A row that passes the two [continue] tests of [ParseCSV]. *)
Definition usable_row (Row : list string) : bool :=
  (14 <=? length Row)%nat && MacRegex_match (strip (nth 0 Row "")).

Definition row_essid (Row : list string) : string := strip (nth 13 Row "").

Definition row_info (Row : list string) : NetworkInfo :=
  {| Privacy := strip (nth 5 Row "");
     Cipher := strip (nth 6 Row "");
     Authentication := strip (nth 7 Row "") |}.

(** The loop body of [ParseCSV]; [Networks] is a dictionary in insertion
    order. *)
Definition parse_row (Networks : list (string * NetworkInfo)) (Row : list string)
    : list (string * NetworkInfo) :=
  if usable_row Row then
    let ESSID := row_essid Row in
    if decide (ESSID <> "" /\ ESSID ∉ map fst Networks)
    then Networks ++ [(ESSID, row_info Row)]
    else Networks
  else Networks.

(** [ParseCSV] on the rows the CSV reader yields. *)
Definition ParseCSV (rows : list (list string)) : list (string * NetworkInfo) :=
  foldl parse_row [] rows.

End ProtocolAssessment.

(** * Properties *)

(** ** Clock comparisons *)

Lemma Qlt_bool_iff (x y : Q) : Qlt_bool x y = true <-> (x < y)%Q.
Proof.
  unfold Qlt_bool. rewrite negb_true_iff, <- not_true_iff_false, Qle_bool_iff.
  split; [apply Qnot_le_lt | apply Qlt_not_le].
Qed.

Lemma Qlt_bool_false (x y : Q) : Qlt_bool x y = false <-> (y <= x)%Q.
Proof.
  unfold Qlt_bool. rewrite negb_false_iff. apply Qle_bool_iff.
Qed.

Lemma Qle_bool_false (x y : Q) : Qle_bool x y = false <-> (y < x)%Q.
Proof.
  rewrite <- not_true_iff_false, Qle_bool_iff.
  split; [apply Qnot_le_lt | apply Qlt_not_le].
Qed.

(** ** Counter *)

Lemma Counter_single_key (a : string) (l : list string) (n : nat) :
  Forall (fun x => x = a) l ->
  foldl (fun c x => counter_incr x c) [(a, n)] l = [(a, (n + length l)%nat)].
Proof.
  intros Hall. revert n. induction Hall as [|x l -> _ IH]; intros n; simpl.
  - by rewrite Nat.add_0_r.
  - rewrite decide_True by done. rewrite IH. do 2 f_equal. lia.
Qed.

Lemma most_common_single (a : string) (l : list string) :
  Forall (fun x => x = a) l -> l <> [] ->
  most_common_1 (Counter l) = [(a, length l)].
Proof.
  intros Hall Hne. destruct Hall as [|x l -> Hall]; [done|].
  unfold Counter. simpl. by rewrite Counter_single_key.
Qed.

(** ** The flood detector *)

Module DeauthFacts.
Import DeauthDetection.

Lemma prune_spec (t : Q) (w : list (Q * string)) (e : Q * string) :
  e ∈ prune t w <-> e ∈ w /\ (t - fst e <= TimeWindow)%Q.
Proof.
  unfold prune. rewrite !list_elem_of_In, filter_In, Qle_bool_iff. done.
Qed.

Lemma prune_all (t : Q) (w : list (Q * string)) :
  Forall (fun e => (t - fst e <= TimeWindow)%Q) w -> prune t w = w.
Proof.
  induction 1 as [|e w He _ IH]; [done|].
  unfold prune in *. simpl. apply Qle_bool_iff in He. by rewrite He, IH.
Qed.

Lemma prune_appended (t : Q) (A : string) (w : list (Q * string)) :
  Forall (fun e => (t - fst e <= TimeWindow)%Q) w ->
  prune t (w ++ [(t, A)]) = w ++ [(t, A)].
Proof.
  intros Hw. apply prune_all. apply Forall_app. split; [done|].
  constructor; [|constructor]. unfold TimeWindow. simpl. lra.
Qed.

Lemma deauth_run_cons (B : gmap string Q) (t : Q) (P : Packet)
    (rest : list (Q * Packet)) (st : State) :
  run B ((t, P) :: rest) st =
  (fst (run B rest (fst (DetectDeauth B t P st))),
   snd (DetectDeauth B t P st) ++ snd (run B rest (fst (DetectDeauth B t P st)))).
Proof.
  cbn [run]. destruct (DetectDeauth B t P st) as [st1 a1]. cbn [fst snd].
  by destruct (run B rest st1).
Qed.

Lemma deauth_run_app (B : gmap string Q) (l1 l2 : list (Q * Packet)) (st : State) :
  run B (l1 ++ l2) st =
  (fst (run B l2 (fst (run B l1 st))), snd (run B l1 st) ++ snd (run B l2 (fst (run B l1 st)))).
Proof.
  revert st. induction l1 as [|[t P] l1 IH]; intros st.
  - simpl. by destruct (run B l2 st).
  - rewrite <- app_comm_cons, !deauth_run_cons, IH. cbn [fst snd]. by rewrite app_assoc.
Qed.

Section Step.
Variable B : gmap string Q.
Variables (t : Q) (D A : string) (st : State).
Hypothesis Hfree : recently_blocked B A t = false.

Let st' := fst (DetectDeauth B t (Deauth D A) st).
Let w' := prune t (window D st ++ [(t, A)]).

Lemma DetectDeauth_records : DeauthRecords st' !! D = Some w'.
Proof.
  subst st' w'. unfold DetectDeauth. rewrite Hfree. simpl.
  repeat case_match; simpl; apply lookup_insert_eq.
Qed.

Lemma DetectDeauth_window : window D st' = w'.
Proof. unfold window. by rewrite DetectDeauth_records. Qed.

Lemma DetectDeauth_other (D' : string) :
  D' <> D -> DeauthRecords st' !! D' = DeauthRecords st !! D'.
Proof.
  intros Hne. subst st'. unfold DetectDeauth. rewrite Hfree. simpl.
  repeat case_match; simpl; by apply lookup_insert_ne.
Qed.

Lemma DetectDeauth_quiet :
  (length w' < Threshold)%nat ->
  snd (DetectDeauth B t (Deauth D A) st) = [] /\ LastAlertTime st' !! D = None.
Proof.
  intros Hlt. subst st' w'. unfold DetectDeauth. rewrite Hfree. cbv zeta.
  apply Nat.leb_gt in Hlt. unfold window in Hlt. rewrite Hlt. simpl.
  split; [done | apply lookup_delete_eq].
Qed.

Lemma DetectDeauth_loud :
  (Threshold <= length w')%nat ->
  exists m,
    snd (DetectDeauth B t (Deauth D A) st) =
      (if alert_due (LastAlertTime st) D t
       then [PublishDeauthAlert D (length w') (most_frequent w') m] else [])
    /\ LastAlertTime st' !! D =
      (if alert_due (LastAlertTime st) D t then Some t else LastAlertTime st !! D).
Proof.
  intros Hle. subst st' w'. unfold DetectDeauth. rewrite Hfree. cbv zeta.
  apply Nat.leb_le in Hle. unfold window in Hle. rewrite Hle.
  destruct (alert_due (LastAlertTime st) D t); simpl.
  - eexists. split; [reflexivity | apply lookup_insert_eq].
  - by exists 0%nat.
Qed.
End Step.

Section Burst.
Variable B : gmap string Q.
Variables D A : string.

Lemma stamped_attackers (ts : list Q) :
  Forall (fun x => x = A) (map snd (stamped A ts)).
Proof. induction ts; simpl; by constructor. Qed.

Lemma most_frequent_stamped (ts : list Q) :
  ts <> [] -> most_frequent (stamped A ts) = A.
Proof.
  intros Hne. unfold most_frequent.
  rewrite (most_common_single A); [done | apply stamped_attackers |].
  by destruct ts.
Qed.

(** While the window stays below the threshold and nothing in it
    expires, a burst only appends to the window and stays silent. *)
Lemma run_quiet (ts : list Q) : forall st : State,
  (forall t, t ∈ ts -> recently_blocked B A t = false) ->
  (forall e t, e ∈ window D st -> t ∈ ts -> (t - fst e <= TimeWindow)%Q) ->
  (forall t t', t ∈ ts -> t' ∈ ts -> (t - t' <= TimeWindow)%Q) ->
  (length (window D st) + length ts < Threshold)%nat ->
  snd (run B (burst D A ts) st) = []
  /\ window D (fst (run B (burst D A ts) st)) = window D st ++ stamped A ts
  /\ (ts <> [] -> LastAlertTime (fst (run B (burst D A ts) st)) !! D = None).
Proof.
  induction ts as [|t ts IH]; intros st Hfree Hold Hspan Hlen.
  - simpl. by rewrite app_nil_r.
  - assert (Hft : recently_blocked B A t = false) by (apply Hfree; left).
    assert (Hw : prune t (window D st ++ [(t, A)]) = window D st ++ [(t, A)]).
    { apply prune_appended, Forall_forall. intros e He. apply Hold; [done | left]. }
    pose proof (DetectDeauth_window B t D A st Hft) as Hwin.
    destruct (DetectDeauth_quiet B t D A st Hft) as [Hsil Hlast].
    { rewrite Hw, length_app. simpl. simpl in Hlen. lia. }
    rewrite Hw in Hwin.
    change (burst D A (t :: ts)) with ((t, Deauth D A) :: burst D A ts).
    rewrite deauth_run_cons, Hsil.
    set (st1 := fst (DetectDeauth B t (Deauth D A) st)) in *.
    destruct (IH st1) as (Hs & Hwn & Hl).
    + intros u Hu. apply Hfree. by right.
    + intros e u He Hu. rewrite Hwin in He.
      apply elem_of_app in He as [He | He].
      * apply Hold; [done | by right].
      * apply list_elem_of_singleton in He as ->.
        apply Hspan; [by right | left].
    + intros u u' Hu Hu'. apply Hspan; by right.
    + rewrite Hwin, length_app. simpl. simpl in Hlen. lia.
    + cbn [fst snd]. rewrite Hs, Hwn, Hwin, <- app_assoc.
      split; [done|]. split; [done|].
      intros _. destruct ts as [|u ts]; [done | by apply Hl].
Qed.
End Burst.

Lemma elem_of_stamped (A : string) (ts : list Q) (e : Q * string) :
  e ∈ stamped A ts <-> exists t, e = (t, A) /\ t ∈ ts.
Proof.
  unfold stamped. rewrite list_elem_of_In, in_map_iff.
  split; intros (t & Ht & Hin); exists t; by rewrite ?list_elem_of_In in *.
Qed.

Lemma stamped_snoc (A : string) (ts : list Q) (t : Q) :
  stamped A ts ++ [(t, A)] = stamped A (ts ++ [t]).
Proof. unfold stamped. by rewrite map_app. Qed.

Lemma length_stamped (A : string) (ts : list Q) : length (stamped A ts) = length ts.
Proof. apply length_map. Qed.

(** C1, as stated, fails: sixteen frames for one destination from one
    unblocked attacker, all within 4 seconds and with no earlier traffic,
    yield two [deauth_attack] alerts when the sixteenth frame comes a
    second or more after the fifteenth. *)
Lemma burst_of_16_two_alerts :
  length spaced_burst = 16%nat
  /\ (forall t t', t ∈ spaced_burst -> t' ∈ spaced_burst -> (t - t' <= 4)%Q)
  /\ (forall t, t ∈ spaced_burst -> recently_blocked ∅ "66:77:88:99:aa:bb" t = false)
  /\ snd (run ∅ (burst "02:00:00:00:00:01" "66:77:88:99:aa:bb" spaced_burst) initial)
     = [PublishDeauthAlert "02:00:00:00:00:01" 15 "66:77:88:99:aa:bb" 15;
        PublishDeauthAlert "02:00:00:00:00:01" 16 "66:77:88:99:aa:bb" 16]
  /\ length (snd (run ∅ (burst "02:00:00:00:00:01" "66:77:88:99:aa:bb" spaced_burst)
                    initial)) <> 1%nat.
Proof.
  split; [reflexivity|]. split; [|split; [|split]].
  - intros t t' Ht Ht'. unfold spaced_burst in *.
    repeat (apply elem_of_cons in Ht as [-> | Ht]); [..| by apply elem_of_nil in Ht];
      repeat (apply elem_of_cons in Ht' as [-> | Ht']);
      try (by apply elem_of_nil in Ht'); lra.
  - done.
  - vm_compute. reflexivity.
  - vm_compute. discriminate.
Qed.

(** C1 (amended).  Sixteen de-auth frames for destination [D] from the
    unblocked attacker [A], all within a 4-second span and starting from an
    empty window for [D]: the fifteenth frame raises one alert, and the
    sixteenth raises a second one exactly when it is stamped at least one
    second after the fifteenth.  So the burst yields exactly one alert when
    the last two frames are less than a second apart, and every alert names
    [A] as the most frequent attacker. *)
Theorem burst_of_16_alerts (B : gmap string Q) (D A : string)
    (pre : list Q) (t15 t16 : Q) (st : State) :
  length pre = 14%nat ->
  window D st = [] ->
  (forall t, t ∈ pre ++ [t15; t16] -> recently_blocked B A t = false) ->
  (forall t t', t ∈ pre ++ [t15; t16] -> t' ∈ pre ++ [t15; t16] -> (t - t' <= 4)%Q) ->
  let alerts := snd (run B (burst D A (pre ++ [t15; t16])) st) in
  (exists m1 m2,
      alerts = PublishDeauthAlert D 15 A m1 ::
               (if Qle_bool 1 (t16 - t15) then [PublishDeauthAlert D 16 A m2] else []))
  /\ Forall (fun a => destination a = D /\ most_frequent_attacker a = A) alerts
  /\ ((t16 - t15 < 1)%Q -> length alerts = 1%nat)
  /\ ((1 <= t16 - t15)%Q -> length alerts = 2%nat).
Proof.
  intros Hlen Hempty Hfree Hspan alerts.
  assert (Hspan5 : forall t t', t ∈ pre ++ [t15; t16] -> t' ∈ pre ++ [t15; t16] ->
                                (t - t' <= TimeWindow)%Q).
  { intros t t' Ht Ht'. specialize (Hspan t t' Ht Ht'). unfold TimeWindow. lra. }
  assert (Hin15 : t15 ∈ pre ++ [t15; t16]) by (apply elem_of_app; right; left).
  assert (Hin16 : t16 ∈ pre ++ [t15; t16]) by (apply elem_of_app; right; right; left).
  assert (Hpre : forall t, t ∈ pre -> t ∈ pre ++ [t15; t16])
    by (intros t Ht; apply elem_of_app; by left).
  destruct (run_quiet B D A pre st) as (Hs & Hw & Hl).
  { intros t Ht. by apply Hfree, Hpre. }
  { intros e t He. rewrite Hempty in He. by apply elem_of_nil in He. }
  { intros t t' Ht Ht'. apply Hspan5; by apply Hpre. }
  { rewrite Hempty, Hlen. unfold Threshold. simpl. lia. }
  rewrite Hempty in Hw. simpl in Hw.
  assert (Hl' : LastAlertTime (fst (run B (burst D A pre) st)) !! D = None).
  { apply Hl. by destruct pre. }
  clear Hl.
  assert (Halerts : exists m1 m2,
      alerts = PublishDeauthAlert D 15 A m1 ::
               (if Qle_bool 1 (t16 - t15) then [PublishDeauthAlert D 16 A m2] else [])).
  { subst alerts. unfold burst. rewrite map_app. fold (burst D A pre).
    rewrite deauth_run_app, Hs. cbn [map]. rewrite !deauth_run_cons. cbn [run fst snd].
    set (s14 := fst (run B (burst D A pre) st)) in *.
    pose proof (DetectDeauth_window B t15 D A s14 (Hfree _ Hin15)) as Hw15.
    rewrite Hw, prune_appended, stamped_snoc in Hw15.
    2:{ apply Forall_forall. intros e (t & -> & Ht)%elem_of_stamped.
        apply Hspan5; [done | by apply Hpre]. }
    destruct (DetectDeauth_loud B t15 D A s14 (Hfree _ Hin15)) as (m1 & Ha15 & Hl15).
    { rewrite Hw, prune_appended, stamped_snoc, length_stamped, length_app, Hlen.
      - unfold Threshold. simpl. lia.
      - apply Forall_forall. intros e (t & -> & Ht)%elem_of_stamped.
        apply Hspan5; [done | by apply Hpre]. }
    unfold alert_due in Ha15, Hl15. rewrite Hl' in Ha15, Hl15.
    rewrite Hw, prune_appended, stamped_snoc, length_stamped, length_app, Hlen,
      most_frequent_stamped in Ha15.
    2:{ by destruct pre. }
    2:{ apply Forall_forall. intros e (t & -> & Ht)%elem_of_stamped.
        apply Hspan5; [done | by apply Hpre]. }
    set (s15 := fst (DetectDeauth B t15 (Deauth D A) s14)) in *.
    assert (Hfresh16 : Forall (fun e => (t16 - fst e <= TimeWindow)%Q)
                         (stamped A (pre ++ [t15]))).
    { apply Forall_forall. intros e (t & -> & Ht)%elem_of_stamped.
      apply Hspan5; [done|]. apply elem_of_app in Ht as [Ht | Ht]; [by apply Hpre|].
      by apply list_elem_of_singleton in Ht as ->. }
    destruct (DetectDeauth_loud B t16 D A s15 (Hfree _ Hin16)) as (m2 & Ha16 & _).
    { rewrite Hw15, prune_appended, stamped_snoc, length_stamped, !length_app, Hlen by done.
      unfold Threshold. simpl. lia. }
    unfold alert_due in Ha16. rewrite Hl15 in Ha16.
    rewrite Hw15, prune_appended, stamped_snoc, length_stamped, !length_app, Hlen,
      most_frequent_stamped in Ha16 by (done || by destruct pre).
    exists m1, m2. rewrite Ha15, Ha16. simpl. by rewrite app_nil_r. }
  split; [done|]. destruct Halerts as (m1 & m2 & ->).
  split; [|split].
  - destruct (Qle_bool 1 (t16 - t15)); repeat constructor.
  - intros Hlt. apply Qle_bool_false in Hlt. by rewrite Hlt.
  - intros Hle. apply Qle_bool_iff in Hle. by rewrite Hle.
Qed.

(** Worked instance: fourteen frames a tenth of a second
    apart, then frames at 1.4 s and 1.5 s. *)
Lemma burst_of_16_alerts_witness :
  length (snd (run ∅ (burst "02:00:00:00:00:01" "66:77:88:99:aa:bb"
                        ([0; 1#10; 2#10; 3#10; 4#10; 5#10; 6#10; 7#10; 8#10; 9#10;
                          10#10; 11#10; 12#10; 13#10]%Q ++ [14#10; 15#10]%Q))
                 initial)) = 1%nat.
Proof.
  refine (proj1 (proj2 (proj2 (burst_of_16_alerts ∅ "02:00:00:00:00:01"
    "66:77:88:99:aa:bb"
    [0; 1#10; 2#10; 3#10; 4#10; 5#10; 6#10; 7#10; 8#10; 9#10;
     10#10; 11#10; 12#10; 13#10]%Q (14#10)%Q (15#10)%Q initial _ _ _ _))) _).
  - reflexivity.
  - reflexivity.
  - intros t _. reflexivity.
  - intros t t' Ht Ht'.
    repeat (apply elem_of_cons in Ht as [-> | Ht]); [..| by apply elem_of_nil in Ht];
      repeat (apply elem_of_cons in Ht' as [-> | Ht']);
      try (by apply elem_of_nil in Ht'); lra.
  - reflexivity.
Defined.

(** C2, as stated, fails: a frame for a second destination at 10 s leaves
    the first destination's window with its entry from 0 s, whose age
    relative to the observed frame is 10 s. *)
Lemma other_window_goes_stale :
  let st := fst (run ∅ [(0%Q, Deauth "02:00:00:00:00:01" "66:77:88:99:aa:bb");
                        (10%Q, Deauth "02:00:00:00:00:02" "66:77:88:99:aa:bb")]
                   initial) in
  window "02:00:00:00:00:01" st = [(0%Q, "66:77:88:99:aa:bb")]
  /\ ~ all_windows_fresh 10 st.
Proof.
  split; [reflexivity|].
  intros Hfresh.
  specialize (Hfresh "02:00:00:00:00:01" (0%Q, "66:77:88:99:aa:bb")).
  assert (H : (10 - 0 <= TimeWindow)%Q) by (apply Hfresh; left).
  unfold TimeWindow in H. lra.
Qed.

(** A frame ignored because of the block cooldown prunes nothing either:
    the attacker's frame at 0 s is recorded, the attacker is blocked at
    1 s, and its frame at 10 s leaves the entry from 0 s in the window of
    that very destination. *)
Lemma ignored_frame_prunes_nothing :
  let st0 := fst (DetectDeauth ∅ 0
                    (Deauth "02:00:00:00:00:01" "66:77:88:99:aa:bb") initial) in
  let st := fst (DetectDeauth {[ "66:77:88:99:aa:bb" := 1%Q ]} 10
                   (Deauth "02:00:00:00:00:01" "66:77:88:99:aa:bb") st0) in
  window "02:00:00:00:00:01" st = [(0%Q, "66:77:88:99:aa:bb")]
  /\ ~ all_windows_fresh 10 st.
Proof.
  split; [reflexivity|].
  intros Hfresh.
  specialize (Hfresh "02:00:00:00:00:01" (0%Q, "66:77:88:99:aa:bb")).
  assert (H : (10 - 0 <= TimeWindow)%Q) by (apply Hfresh; left).
  unfold TimeWindow in H. lra.
Qed.

(** C2 (amended).  Immediately after a call for a frame that the block
    cooldown does not suppress, the window of that frame's destination
    holds exactly the earlier entries and the new one whose age relative to
    the frame's clock reading is at most [TimeWindow] (5 s), the test being
    inclusive; an entry stamped later than the frame (negative age) is
    therefore retained.  The windows of the other destinations are left as
    they were. *)
Theorem window_after_observe (B : gmap string Q) (t : Q) (D A : string) (st : State) :
  recently_blocked B A t = false ->
  let st' := fst (DetectDeauth B t (Deauth D A) st) in
  (forall e, e ∈ window D st' <->
             e ∈ window D st ++ [(t, A)] /\ (t - fst e <= TimeWindow)%Q)
  /\ (forall e, e ∈ window D st -> (t < fst e)%Q -> e ∈ window D st')
  /\ (forall D', D' <> D -> window D' st' = window D' st).
Proof.
  intros Hfree st'. subst st'. split; [|split].
  - intros e. rewrite DetectDeauth_window by done. apply prune_spec.
  - intros e He Hlater. rewrite DetectDeauth_window by done.
    apply prune_spec. split; [apply elem_of_app; by left|].
    unfold TimeWindow. lra.
  - intros D' Hne. unfold window. by rewrite DetectDeauth_other.
Qed.

(** Worked instance: the clock steps back from 7 s to
    6 s and the entry stamped 7 s stays in the window. *)
Lemma window_after_observe_witness :
  (7%Q, "66:77:88:99:aa:bb") ∈
    window "02:00:00:00:00:01"
      (fst (DetectDeauth ∅ 6 (Deauth "02:00:00:00:00:01" "66:77:88:99:aa:bb")
              (fst (DetectDeauth ∅ 7
                      (Deauth "02:00:00:00:00:01" "66:77:88:99:aa:bb") initial)))).
Proof.
  refine (proj1 (proj2 (window_after_observe ∅ 6 "02:00:00:00:00:01"
    "66:77:88:99:aa:bb" _ _)) (7%Q, "66:77:88:99:aa:bb") _ _).
  - reflexivity.
  - left.
  - reflexivity.
Defined.

Lemma recently_blocked_iff (B : gmap string Q) (A : string) (T t : Q) :
  B !! A = Some T -> recently_blocked B A t = true <-> (t - T < 30)%Q.
Proof. intros HB. unfold recently_blocked. rewrite HB. apply Qlt_bool_iff. Qed.

(** C3.  With a block record for attacker [A] at time [T], a de-auth frame
    from [A] handled at a clock reading in [[T, T + 30)] changes nothing and
    publishes nothing, whatever its destination; at [T + 30] or later the
    frame is handled as if [A] had no block record, and enters its
    destination's window. *)
Theorem blocked_attacker_ignored (B : gmap string Q) (A : string) (T t : Q)
    (D : string) (st : State) :
  B !! A = Some T ->
  ((T <= t)%Q -> (t < T + 30)%Q -> DetectDeauth B t (Deauth D A) st = (st, []))
  /\ ((T + 30 <= t)%Q ->
      DetectDeauth B t (Deauth D A) st = DetectDeauth (delete A B) t (Deauth D A) st
      /\ (t, A) ∈ window D (fst (DetectDeauth B t (Deauth D A) st))).
Proof.
  intros HB. split.
  - intros _ Hlt. unfold DetectDeauth.
    assert (Hb : recently_blocked B A t = true)
      by (apply (recently_blocked_iff B A T); [done | lra]).
    by rewrite Hb.
  - intros Hge.
    assert (Hb : recently_blocked B A t = false).
    { apply not_true_iff_false. rewrite (recently_blocked_iff B A T) by done. lra. }
    assert (Hd : recently_blocked (delete A B) A t = false).
    { unfold recently_blocked. by rewrite lookup_delete_eq. }
    split.
    + unfold DetectDeauth. by rewrite Hb, Hd.
    + rewrite DetectDeauth_window by done. apply prune_spec.
      split; [apply elem_of_app; right; left|].
      unfold TimeWindow. simpl. lra.
Qed.

(** Worked instance: blocked at 100 s, a frame at
    110 s is dropped and a frame at 130 s is recorded. *)
Lemma blocked_attacker_ignored_witness :
  DetectDeauth {[ "66:77:88:99:aa:bb" := 100%Q ]} 110
    (Deauth "02:00:00:00:00:01" "66:77:88:99:aa:bb") initial = (initial, [])
  /\ (130%Q, "66:77:88:99:aa:bb") ∈
     window "02:00:00:00:00:01"
       (fst (DetectDeauth {[ "66:77:88:99:aa:bb" := 100%Q ]} 130
               (Deauth "02:00:00:00:00:01" "66:77:88:99:aa:bb") initial)).
Proof.
  split.
  - refine (proj1 (blocked_attacker_ignored {[ "66:77:88:99:aa:bb" := 100%Q ]}
      "66:77:88:99:aa:bb" 100 110 "02:00:00:00:00:01" initial _) _ _).
    + reflexivity.
    + discriminate.
    + reflexivity.
  - refine (proj2 (proj2 (blocked_attacker_ignored {[ "66:77:88:99:aa:bb" := 100%Q ]}
      "66:77:88:99:aa:bb" 100 130 "02:00:00:00:00:01" initial _) _)).
    + reflexivity.
    + discriminate.
Defined.

End DeauthFacts.

(** ** Splitting and joining *)

Lemma split_colon_nonempty (s : string) : split_colon s <> [].
Proof.
  destruct s as [|c s]; simpl; [done|].
  destruct (Ascii.eqb c ":"); [done|]. by destruct (split_colon s).
Qed.

Lemma join_split_colon (s : string) : join ":" (split_colon s) = s.
Proof.
  induction s as [|c s IH]; [done|]. simpl.
  destruct (Ascii.eqb_spec c ":") as [-> | Hne].
  - pose proof (split_colon_nonempty s) as Hs.
    destruct (split_colon s) as [|p ps]; [done|].
    change (join ":" ("" :: p :: ps)) with ("" +:+ ":" +:+ join ":" (p :: ps)).
    by rewrite IH.
  - pose proof (split_colon_nonempty s) as Hs.
    destruct (split_colon s) as [|p ps]; [done|].
    destruct ps as [|q ps].
    + simpl in *. by rewrite IH.
    + change (join ":" (String c p :: q :: ps))
        with (String c (p +:+ ":" +:+ join ":" (q :: ps))).
      change (join ":" (p :: q :: ps)) with (p +:+ ":" +:+ join ":" (q :: ps)) in IH.
      by rewrite IH.
Qed.

(** ** Trust store and AP classifier *)

Module RogueFacts.
Import RogueAPDetection.

(** Whatever the number of colon-separated parts, [GetPrefix] is the
    lower-cased join of the first three of them. *)
Lemma GetPrefix_spec (BSSID : string) :
  GetPrefix BSSID = lower (join ":" (take 3 (split_colon BSSID))).
Proof.
  unfold GetPrefix. destruct (Nat.leb_spec 3 (length (split_colon BSSID))); [done|].
  rewrite take_ge by lia. by rewrite join_split_colon.
Qed.


(** C8.  Applying the same trust update twice leaves the state that
    applying it once leaves. *)
Theorem update_idempotent (U : TrustUpdate) (st : State) :
  UpdateTrustedCallback U (UpdateTrustedCallback U st) = UpdateTrustedCallback U st.
Proof.
  destruct U as [[p|] [q|]]; destruct st; reflexivity.
Qed.

(** C4, as stated, fails: a second beacon from the same address under the
    same public SSID has a prefix outside the allowed list and yet produces
    no alert, the pair having been alerted already. *)
Lemma repeated_public_rogue_silent :
  let b := Beacon (Some "CafeWifi") "44:55:66:99:99:99" in
  let st1 := fst (DetectRogue b example_trust) in
  PersonalTrusted st1 !! beacon_ssid (Some "CafeWifi") = None
  /\ PublicTrusted st1 !! beacon_ssid (Some "CafeWifi") = Some ["11:22:33"]
  /\ (GetPrefix (lower "44:55:66:99:99:99") ∉ ["11:22:33"])
  /\ snd (DetectRogue b st1) = [].
Proof.
  split; [reflexivity|]. split; [reflexivity|]. split; [|reflexivity].
  intros H. apply list_elem_of_singleton in H. discriminate H.
Qed.

(** C4 (amended).  For a beacon whose normalised SSID is a key of the
    public mapping and not of the personal one: the detected prefix is the
    lower-cased join of the first three colon-separated octets of the
    BSSID; if it is one of the stored prefixes nothing is published and
    nothing changes; otherwise, unless the (ssid, bssid) pair was alerted
    before, exactly one [rogue_ap] alert of network type "public" is
    published with the detected prefix and the stored prefix list; for a
    pair alerted before nothing is published. *)
Theorem public_beacon_classified (info : option string) (addr2 : string)
    (Allowed : list string) (st : State) :
  PersonalTrusted st !! beacon_ssid info = None ->
  PublicTrusted st !! beacon_ssid info = Some Allowed ->
  let SSID := beacon_ssid info in
  let BSSID := lower addr2 in
  let DetectedPrefix := lower (join ":" (take 3 (split_colon BSSID))) in
  (DetectedPrefix ∈ Allowed -> DetectRogue (Beacon info addr2) st = (st, []))
  /\ (DetectedPrefix ∉ Allowed -> (SSID, BSSID) ∉ AlertedRogues st ->
      exists a,
        snd (DetectRogue (Beacon info addr2) st) = [a]
        /\ a = RoguePublic SSID BSSID DetectedPrefix Allowed
        /\ alert_type a = "rogue_ap" /\ network_type a = Some "public")
  /\ (DetectedPrefix ∉ Allowed -> (SSID, BSSID) ∈ AlertedRogues st ->
      DetectRogue (Beacon info addr2) st = (st, [])).
Proof.
  intros Hpers Hpub SSID BSSID DetectedPrefix.
  subst DetectedPrefix. rewrite <- GetPrefix_spec.
  unfold DetectRogue. fold SSID BSSID. fold SSID in Hpers, Hpub.
  rewrite Hpers, Hpub. cbv zeta.
  split; [|split].
  - intros Hin. by rewrite decide_True.
  - intros Hout Hnew. rewrite decide_False, decide_False by done.
    eexists. split; [reflexivity|]. done.
  - intros Hout Hold. by rewrite decide_False, decide_True.
Qed.

(** Worked instance: the specification's CafeWifi
    example, a beacon from the allowed prefix and one from another. *)
Lemma public_beacon_classified_witness :
  DetectRogue (Beacon (Some "CafeWifi") "11:22:33:99:99:99") example_trust
    = (example_trust, [])
  /\ exists a,
      snd (DetectRogue (Beacon (Some "CafeWifi") "44:55:66:99:99:99") example_trust) = [a]
      /\ a = RoguePublic (beacon_ssid (Some "CafeWifi")) (lower "44:55:66:99:99:99")
               (lower (join ":" (take 3 (split_colon (lower "44:55:66:99:99:99")))))
               ["11:22:33"]
      /\ alert_type a = "rogue_ap" /\ network_type a = Some "public".
Proof.
  split.
  - refine (proj1 (public_beacon_classified (Some "CafeWifi") "11:22:33:99:99:99"
      ["11:22:33"] example_trust _ _) _).
    + reflexivity.
    + reflexivity.
    + left.
  - refine (proj1 (proj2 (public_beacon_classified (Some "CafeWifi")
      "44:55:66:99:99:99" ["11:22:33"] example_trust _ _)) _ _).
    + reflexivity.
    + reflexivity.
    + intros H. apply list_elem_of_singleton in H. discriminate H.
    + exact (not_elem_of_empty _).
Defined.

(** *** Traces *)

Lemma rogue_run_cons (e : Event) (rest : list Event) (st : State) :
  run (e :: rest) st =
  (fst (run rest (fst (step e st))), snd (step e st) ++ snd (run rest (fst (step e st)))).
Proof.
  cbn [run]. destruct (step e st) as [st1 a1]. cbn [fst snd].
  by destruct (run rest st1).
Qed.

Lemma rogue_run_app (l1 l2 : list Event) (st : State) :
  run (l1 ++ l2) st =
  (fst (run l2 (fst (run l1 st))), snd (run l1 st) ++ snd (run l2 (fst (run l1 st)))).
Proof.
  revert st. induction l1 as [|e l1 IH]; intros st.
  - simpl. by destruct (run l2 st).
  - rewrite <- app_comm_cons, !rogue_run_cons, IH. cbn [fst snd]. by rewrite app_assoc.
Qed.

(** The four outcomes of one event, for case analysis. *)
Lemma step_cases (e : Event) (st : State) :
  (snd (step e st) = []
   /\ AlertedRogues (fst (step e st)) = AlertedRogues st
   /\ UnrecognisedSSIDs (fst (step e st)) = UnrecognisedSSIDs st)
  \/ (exists a p, snd (step e st) = [a] /\ rogue_pair a = Some p
      /\ alert_type a = "rogue_ap"
      /\ (p ∉ AlertedRogues st)
      /\ AlertedRogues (fst (step e st)) = {[p]} ∪ AlertedRogues st
      /\ UnrecognisedSSIDs (fst (step e st)) = UnrecognisedSSIDs st)
  \/ (exists s, s <> "" /\ snd (step e st) = []
      /\ AlertedRogues (fst (step e st)) = AlertedRogues st
      /\ UnrecognisedSSIDs (fst (step e st)) = {[s]} ∪ UnrecognisedSSIDs st).
Proof.
  destruct e as [[info addr2|]|Data]; cbn [step]; [| by left |].
  - unfold DetectRogue.
    destruct (PersonalTrusted st !! beacon_ssid info) as [AllowedBSSIDs|].
    + destruct (decide (lower addr2 ∈ AllowedBSSIDs)); [by left|].
      destruct (decide ((beacon_ssid info, lower addr2) ∈ AlertedRogues st)); [by left|].
      right; left. by eexists _, _.
    + destruct (PublicTrusted st !! beacon_ssid info) as [AllowedPrefixes|].
      * cbv zeta.
        destruct (decide (GetPrefix (lower addr2) ∈ AllowedPrefixes)); [by left|].
        destruct (decide ((beacon_ssid info, lower addr2) ∈ AlertedRogues st)); [by left|].
        right; left. by eexists _, _.
      * cbv zeta.
        destruct (decide (NormaliseSSID (beacon_ssid info) = "")); [by left|].
        right; right. by eexists.
  - left. destruct Data as [[p|] [q|]]; by destruct st.
Qed.

Lemma alerted_grows (events : list Event) (st : State) (p : string * string) :
  p ∈ AlertedRogues st -> p ∈ AlertedRogues (fst (run events st)).
Proof.
  revert st. induction events as [|e events IH]; intros st Hp; [done|].
  rewrite rogue_run_cons. cbn [fst]. apply IH.
  destruct (step_cases e st) as [(_ & -> & _) | [(a & q & _ & _ & _ & _ & -> & _)
                                                | (s & _ & _ & -> & _)]];
    [done | by apply elem_of_union_r | done].
Qed.

Lemma unrecognised_grows (events : list Event) (st : State) (s : string) :
  s ∈ UnrecognisedSSIDs st -> s ∈ UnrecognisedSSIDs (fst (run events st)).
Proof.
  revert st. induction events as [|e events IH]; intros st Hs; [done|].
  rewrite rogue_run_cons. cbn [fst]. apply IH.
  destruct (step_cases e st) as [(_ & _ & ->) | [(a & q & _ & _ & _ & _ & _ & ->)
                                                | (s' & _ & _ & _ & ->)]];
    [done | done | by apply elem_of_union_r].
Qed.

Lemma alerted_pair_silent (events : list Event) (st : State) (p : string * string) :
  p ∈ AlertedRogues st -> alerts_for p (snd (run events st)) = [].
Proof.
  revert st. induction events as [|e events IH]; intros st Hp; [done|].
  rewrite rogue_run_cons. cbn [snd]. unfold alerts_for. rewrite List.filter_app.
  fold (alerts_for p (snd (step e st))).
  fold (alerts_for p (snd (run events (fst (step e st))))).
  rewrite IH by (by apply (alerted_grows [e]) in Hp; rewrite rogue_run_cons in Hp).
  rewrite app_nil_r.
  destruct (step_cases e st) as [(-> & _) | [(a & q & -> & Hq & _ & Hnew & _)
                                            | (s & _ & -> & _)]]; [done | | done].
  unfold alerts_for. simpl. rewrite Hq, bool_decide_eq_false_2; [done|].
  intros [= ->]. done.
Qed.

(** C5.  Over any sequence of beacons and trust updates, from any state,
    at most one [rogue_ap] alert is published for a given (ssid, bssid)
    pair: once the pair has been alerted, every later observation of it is
    absorbed. *)
Theorem rogue_alert_at_most_once (events : list Event) (st : State)
    (p : string * string) :
  (length (alerts_for p (snd (run events st))) <= 1)%nat.
Proof.
  revert st. induction events as [|e events IH]; intros st; [simpl; lia|].
  rewrite rogue_run_cons. cbn [snd]. unfold alerts_for. rewrite List.filter_app, length_app.
  fold (alerts_for p (snd (step e st))).
  fold (alerts_for p (snd (run events (fst (step e st))))).
  destruct (step_cases e st) as [(-> & _) | [(a & q & Ha & Hq & _ & Hnew & Hadd & _)
                                            | (s & _ & -> & _)]].
  - simpl. apply IH.
  - rewrite Ha. unfold alerts_for at 1. simpl. rewrite Hq.
    destruct (decide (q = p)) as [-> | Hne].
    + rewrite bool_decide_eq_true_2 by done.
      rewrite alerted_pair_silent; [simpl; lia|]. rewrite Hadd.
      by apply elem_of_union_l, elem_of_singleton.
    + rewrite bool_decide_eq_false_2 by congruence. simpl. apply IH.
  - simpl. apply IH.
Qed.

(** *** The shutdown flush *)

Lemma run_alerts_rogue (events : list Event) (st : State) :
  Forall (fun a => alert_type a = "rogue_ap") (snd (run events st)).
Proof.
  revert st. induction events as [|e events IH]; intros st; [constructor|].
  rewrite rogue_run_cons. cbn [snd]. apply Forall_app. split; [|apply IH].
  destruct (step_cases e st) as [(-> & _) | [(a & q & -> & _ & Ha & _)
                                            | (s & _ & -> & _)]];
    repeat constructor; done.
Qed.

Lemma batch_alerts_rogue (l : list Alert) :
  Forall (fun a => alert_type a = "rogue_ap") l -> batch_alerts l = [].
Proof.
  induction 1 as [|a l Ha _ IH]; [done|].
  unfold batch_alerts in *. simpl. rewrite Ha, IH. done.
Qed.

Lemma enumerates_elem_of (listing : list string) (X : gset string) (s : string) :
  enumerates listing X -> s ∈ listing <-> s ∈ X.
Proof. unfold enumerates. intros ->. apply elem_of_elements. Qed.

Lemma unmatched_beacon_recorded (info : option string) (addr2 : string) (st : State) :
  PersonalTrusted st !! beacon_ssid info = None ->
  PublicTrusted st !! beacon_ssid info = None ->
  UnrecognisedSSIDs (fst (DetectRogue (Beacon info addr2) st)) =
    if decide (NormaliseSSID (beacon_ssid info) = "") then UnrecognisedSSIDs st
    else {[NormaliseSSID (beacon_ssid info)]} ∪ UnrecognisedSSIDs st.
Proof.
  intros Hpers Hpub. unfold DetectRogue. rewrite Hpers, Hpub. cbv zeta.
  by destruct (decide (NormaliseSSID (beacon_ssid info) = "")).
Qed.

(** C6, as stated, fails: the batch alert lists the set in the order of
    its hash table, here "Unknown2" before "Unknown1", which is not
    sorted. *)
Lemma flush_listing_unsorted :
  enumerates ["Unknown2"; "Unknown1"] (UnrecognisedSSIDs (fst (run two_unknown initial)))
  /\ StartSniffing two_unknown Returned ["Unknown2"; "Unknown1"] initial
     = [UnrecognisedAps ["Unknown2"; "Unknown1"]]
  /\ ~ Sorted str_le ["Unknown2"; "Unknown1"].
Proof.
  split; [|split].
  - unfold enumerates.
    assert (elements (UnrecognisedSSIDs (fst (run two_unknown initial)))
            = ["Unknown1"; "Unknown2"]) as -> by reflexivity.
    apply perm_swap.
  - reflexivity.
  - intros Hs. apply Sorted_inv in Hs as [_ Hhd]. apply HdRel_inv in Hhd.
    unfold str_le in Hhd. vm_compute in Hhd. discriminate Hhd.
Qed.

(** When [sniff] raises another exception the process exits and nothing
    is flushed. *)
Lemma failed_sniff_flushes_nothing (events : list Event) (listing : list string)
    (st : State) :
  batch_alerts (StartSniffing events Failed listing st) = [].
Proof.
  unfold StartSniffing. pose proof (run_alerts_rogue events st) as H.
  destruct (run events st) as [st1 alerts]. by apply batch_alerts_rogue.
Qed.

(** C6 (amended).  When sniffing returns or is interrupted from the
    keyboard: with an empty [UnrecognisedSSIDs] no [unrecognised_aps] alert
    is published; with a non-empty one exactly one is published, and its
    [ssids] field lists the members of the set, each once, in the order the
    set is enumerated (not necessarily sorted).  The list contains the
    re-normalised SSID of every beacon that matched neither trust mapping
    when it was observed, provided that SSID is not empty. *)
Theorem shutdown_flush (events : list Event) (ending : SniffEnd)
    (listing : list string) (st : State) :
  ending <> Failed ->
  enumerates listing (UnrecognisedSSIDs (fst (run events st))) ->
  (UnrecognisedSSIDs (fst (run events st)) = ∅ ->
     batch_alerts (StartSniffing events ending listing st) = [])
  /\ (UnrecognisedSSIDs (fst (run events st)) <> ∅ ->
      batch_alerts (StartSniffing events ending listing st) = [UnrecognisedAps listing]
      /\ NoDup listing
      /\ forall s, s ∈ listing <-> s ∈ UnrecognisedSSIDs (fst (run events st)))
  /\ (forall ev1 info addr2 ev2,
        events = ev1 ++ Sniffed (Beacon info addr2) :: ev2 ->
        PersonalTrusted (fst (run ev1 st)) !! beacon_ssid info = None ->
        PublicTrusted (fst (run ev1 st)) !! beacon_ssid info = None ->
        NormaliseSSID (beacon_ssid info) <> "" ->
        NormaliseSSID (beacon_ssid info) ∈ listing).
Proof.
  intros Hend Henum.
  assert (Hout : batch_alerts (StartSniffing events ending listing st)
                 = flush listing (fst (run events st))).
  { unfold StartSniffing. pose proof (run_alerts_rogue events st) as H.
    destruct (run events st) as [st1 alerts]. cbn [fst snd] in *.
    destruct ending; [| |done]; unfold batch_alerts; rewrite List.filter_app;
      fold (batch_alerts alerts); rewrite batch_alerts_rogue by done;
      unfold flush; by destruct (decide (UnrecognisedSSIDs st1 = ∅)). }
  rewrite Hout. unfold flush. split; [|split].
  - intros Hempty. by rewrite decide_True.
  - intros Hne. rewrite decide_False by done. split; [done|]. split.
    + unfold enumerates in Henum. rewrite Henum. apply NoDup_elements.
    + intros s. by apply enumerates_elem_of.
  - intros ev1 info addr2 ev2 -> Hpers Hpub Hclean.
    apply (enumerates_elem_of _ _ _ Henum).
    rewrite rogue_run_app. cbn [fst]. rewrite rogue_run_cons. cbn [fst].
    apply unrecognised_grows. cbn [step].
    rewrite unmatched_beacon_recorded, decide_False by done.
    by apply elem_of_union_l, elem_of_singleton.
Qed.

(** Worked instance: two unknown networks, enumerated in the
    order "Unknown2", "Unknown1". *)
Lemma shutdown_flush_witness :
  batch_alerts (StartSniffing two_unknown KeyboardInterrupt ["Unknown2"; "Unknown1"]
                  initial)
    = [UnrecognisedAps ["Unknown2"; "Unknown1"]].
Proof.
  refine (proj1 (proj1 (proj2 (shutdown_flush two_unknown KeyboardInterrupt
    ["Unknown2"; "Unknown1"] initial _ _)) _)).
  - discriminate.
  - unfold enumerates.
    assert (elements (UnrecognisedSSIDs (fst (run two_unknown initial)))
            = ["Unknown1"; "Unknown2"]) as -> by reflexivity.
    apply perm_swap.
  - intros H. apply (f_equal elements) in H. vm_compute in H. discriminate H.
Defined.

(** C10.  A beacon that matches neither trust mapping adds its
    re-normalised SSID to [UnrecognisedSSIDs] only when that string is not
    empty; so if the empty string is not in the set to begin with (the set
    starts empty) it is not in it after any sequence of events, and no
    [unrecognised_aps] alert at shutdown lists it. *)
Theorem empty_ssid_never_unrecognised (events : list Event) (ending : SniffEnd)
    (listing : list string) (st : State) :
  "" ∉ UnrecognisedSSIDs st ->
  enumerates listing (UnrecognisedSSIDs (fst (run events st))) ->
  ("" ∉ UnrecognisedSSIDs (fst (run events st)))
  /\ (forall l, UnrecognisedAps l ∈ StartSniffing events ending listing st -> "" ∉ l)
  /\ (forall info addr2 s,
        PersonalTrusted s !! beacon_ssid info = None ->
        PublicTrusted s !! beacon_ssid info = None ->
        UnrecognisedSSIDs (fst (DetectRogue (Beacon info addr2) s)) =
          if decide (NormaliseSSID (beacon_ssid info) = "") then UnrecognisedSSIDs s
          else {[NormaliseSSID (beacon_ssid info)]} ∪ UnrecognisedSSIDs s).
Proof.
  intros Hst Henum.
  assert (Hinv : "" ∉ UnrecognisedSSIDs (fst (run events st))).
  { clear Henum. revert st Hst. induction events as [|e events IH]; intros st Hst; [done|].
    rewrite rogue_run_cons. cbn [fst]. apply IH.
    destruct (step_cases e st) as [(_ & _ & ->) | [(a & q & _ & _ & _ & _ & _ & ->)
                                                  | (s & Hs & _ & _ & ->)]];
      [done | done |].
    intros [Hin | Hin]%elem_of_union; [|done].
    apply elem_of_singleton in Hin. by symmetry in Hin. }
  split; [done|]. split; [|intros info addr2 s; apply unmatched_beacon_recorded].
  intros l Hl. unfold StartSniffing in Hl.
  pose proof (run_alerts_rogue events st) as Hrogue.
  destruct (run events st) as [st1 alerts]. cbn [fst snd] in *.
  assert (Hnot : UnrecognisedAps l ∉ alerts).
  { intros Hin. rewrite Forall_forall in Hrogue. by apply Hrogue in Hin. }
  assert (Hfl : UnrecognisedAps l ∈ flush listing st1).
  { destruct ending; [| |done]; by apply elem_of_app in Hl as [Hl | Hl]. }
  unfold flush in Hfl. destruct (decide (UnrecognisedSSIDs st1 = ∅)).
  - by apply elem_of_nil in Hfl.
  - apply list_elem_of_singleton in Hfl as [= ->].
    by rewrite (enumerates_elem_of _ _ _ Henum).
Qed.

(** Worked instance: from the initial state,
    beacons with a blank SSID and with an undecodable one. *)
Lemma empty_ssid_never_unrecognised_witness :
  "" ∉ UnrecognisedSSIDs
         (fst (run [Sniffed (Beacon (Some "  ") "02:00:00:00:00:0a");
                    Sniffed (Beacon None "02:00:00:00:00:0b")] initial)).
Proof.
  refine (proj1 (empty_ssid_never_unrecognised
    [Sniffed (Beacon (Some "  ") "02:00:00:00:00:0a");
     Sniffed (Beacon None "02:00:00:00:00:0b")] Returned ["<unknown>"] initial _ _)).
  - exact (not_elem_of_empty _).
  - unfold enumerates.
    assert (elements (UnrecognisedSSIDs
              (fst (run [Sniffed (Beacon (Some "  ") "02:00:00:00:00:0a");
                         Sniffed (Beacon None "02:00:00:00:00:0b")] initial)))
            = ["<unknown>"]) as -> by reflexivity.
    reflexivity.
Defined.

End RogueFacts.

(** ** The block coordinator *)

Module BlockFacts.
Import MQTTHelper.

(** C9.  [BlockRogueAP] hands the injection primitive a broadcast de-auth
    frame in the target's name.  If the primitive returns, the target's
    block record is set to the clock reading and no other record changes;
    if it raises, the exception reaches the caller and the block records
    are exactly what they were. *)
Theorem block_records_only_on_success (Exn : Type)
    (sendp : DeauthFrame -> string -> nat -> option Exn)
    (now : Q) (target iface : string) (n : nat) (B : gmap string Q) :
  let frame := {| addr1 := "ff:ff:ff:ff:ff:ff"; addr2 := target;
                  addr3 := target; reason := 7 |} in
  (sendp frame iface n = None ->
     fst (BlockRogueAP Exn sendp now target iface n B) = Ok tt
     /\ snd (BlockRogueAP Exn sendp now target iface n B) !! target = Some now
     /\ forall k, k <> target ->
          snd (BlockRogueAP Exn sendp now target iface n B) !! k = B !! k)
  /\ (forall e, sendp frame iface n = Some e ->
        BlockRogueAP Exn sendp now target iface n B = (Raise e, B)).
Proof.
  intros frame. unfold BlockRogueAP. fold frame. split.
  - intros ->. cbn [fst snd]. split; [done|]. split.
    + apply lookup_insert_eq.
    + intros k Hk. by apply lookup_insert_ne.
  - by intros e ->.
Qed.

(** Worked instance: a block on "wlan1"
    succeeds and is recorded; one on a missing interface raises and
    records nothing. *)
Lemma block_records_only_on_success_witness :
  snd (BlockRogueAP string example_sendp 100 "66:77:88:99:aa:bb" "wlan1" 10 ∅)
    !! "66:77:88:99:aa:bb" = Some 100%Q
  /\ BlockRogueAP string example_sendp 100 "66:77:88:99:aa:bb" "wlan9" 10 ∅
     = (Raise "No such device", ∅).
Proof.
  split.
  - refine (proj1 (proj2 (proj1 (block_records_only_on_success string example_sendp
      100 "66:77:88:99:aa:bb" "wlan1" 10 ∅) _))).
    reflexivity.
  - refine (proj2 (block_records_only_on_success string example_sendp
      100 "66:77:88:99:aa:bb" "wlan9" 10 ∅) "No such device" _).
    reflexivity.
Defined.

End BlockFacts.

(** ** Counter in general *)

Module CounterFacts.
Import DeauthObservations.

Lemma counter_get_incr (a k : string) (c : list (string * nat)) :
  counter_get k (counter_incr a c) =
  if decide (k = a) then S (counter_get k c) else counter_get k c.
Proof.
  unfold counter_get. induction c as [|[k' n] c IH]; simpl.
  - destruct (decide (k = a)) as [-> | Hne].
    + by rewrite bool_decide_eq_true_2.
    + by rewrite bool_decide_eq_false_2 by congruence.
  - destruct (decide (k' = a)) as [-> | Hne]; simpl.
    + destruct (decide (k = a)) as [-> | Hka].
      * by rewrite bool_decide_eq_true_2.
      * by rewrite bool_decide_eq_false_2 by congruence.
    + destruct (decide (k' = k)) as [-> | Hk].
      * rewrite bool_decide_eq_true_2 by done. by rewrite decide_False.
      * rewrite bool_decide_eq_false_2 by done. apply IH.
Qed.

Lemma counter_keys_incr (a : string) (c : list (string * nat)) :
  map fst (counter_incr a c) =
  if decide (a ∈ map fst c) then map fst c else map fst c ++ [a].
Proof.
  induction c as [|[k n] c IH].
  - cbn [counter_incr map fst app].
    destruct (decide (a ∈ [])) as [Hin | _]; [by apply elem_of_nil in Hin | done].
  - cbn [counter_incr map fst].
    destruct (decide (k = a)) as [-> | Hne]; cbn [map fst].
    + destruct (decide (a ∈ a :: map fst c)) as [_ | Hout]; [done|].
      exfalso. apply Hout. left.
    + rewrite IH. destruct (decide (a ∈ map fst c)) as [Hin | Hout].
      * destruct (decide (a ∈ k :: map fst c)) as [_ | Hout]; [done|].
        exfalso. apply Hout. by right.
      * destruct (decide (a ∈ k :: map fst c)) as [Hin | _]; [|done].
        apply elem_of_cons in Hin as [Heq | Hin]; congruence.
Qed.

Lemma Counter_snoc (l : list string) (x : string) :
  Counter (l ++ [x]) = counter_incr x (Counter l).
Proof. unfold Counter. by rewrite foldl_app. Qed.

Lemma counter_get_Counter (l : list string) (k : string) :
  counter_get k (Counter l) = occurrences k l.
Proof.
  induction l as [|x l IH] using rev_ind; [done|].
  rewrite Counter_snoc, counter_get_incr, IH. unfold occurrences.
  rewrite List.filter_app, length_app. simpl.
  destruct (decide (k = x)) as [-> | Hne].
  - rewrite bool_decide_eq_true_2 by done. simpl. lia.
  - rewrite bool_decide_eq_false_2 by congruence. simpl. lia.
Qed.

Lemma Counter_keys_NoDup (l : list string) : NoDup (map fst (Counter l)).
Proof.
  induction l as [|x l IH] using rev_ind; [constructor|].
  rewrite Counter_snoc, counter_keys_incr.
  destruct (decide (x ∈ map fst (Counter l))); [done|].
  apply NoDup_app. split; [done|]. split.
  - intros y Hy Hx. apply list_elem_of_singleton in Hx as ->. done.
  - apply NoDup_singleton.
Qed.

Lemma Counter_keys_elem (l : list string) (k : string) :
  k ∈ map fst (Counter l) <-> k ∈ l.
Proof.
  induction l as [|x l IH] using rev_ind.
  - split; intros H; by apply elem_of_nil in H.
  - rewrite Counter_snoc, counter_keys_incr, elem_of_app, list_elem_of_singleton.
    destruct (decide (x ∈ map fst (Counter l))) as [Hin | Hout].
    + rewrite IH. split; [by left | intros [H | ->]; [done | by apply IH]].
    + rewrite elem_of_app, list_elem_of_singleton, IH. done.
Qed.

(** The keys of a longer list extend the keys of a prefix. *)
Lemma Counter_keys_prefix (l1 l2 : list string) :
  exists more, map fst (Counter (l1 ++ l2)) = map fst (Counter l1) ++ more.
Proof.
  induction l2 as [|x l2 IH] using rev_ind.
  - exists []. by rewrite !app_nil_r.
  - destruct IH as [more IH]. rewrite app_assoc, Counter_snoc, counter_keys_incr, IH.
    destruct (decide (x ∈ map fst (Counter l1) ++ more)).
    + by exists more.
    + exists (more ++ [x]). by rewrite app_assoc.
Qed.

Lemma counter_entry_get (c : list (string * nat)) (k : string) (n : nat) :
  NoDup (map fst c) -> (k, n) ∈ c -> counter_get k c = n.
Proof.
  unfold counter_get. induction c as [|[k' n'] c IH]; intros Hnd Hin.
  - by apply elem_of_nil in Hin.
  - simpl in *. apply NoDup_cons in Hnd as [Hk' Hnd].
    apply elem_of_cons in Hin as [[= <- <-] | Hin].
    + by rewrite bool_decide_eq_true_2.
    + rewrite bool_decide_eq_false_2; [by apply IH|].
      intros ->. apply Hk'. apply list_elem_of_In, in_map_iff.
      exists (k, n). split; [done | by apply list_elem_of_In].
Qed.

(** [most_common(1)] keeps the first entry with the largest count. *)
Lemma most_common_fold (rest p1 p2 : list (string * nat)) (best : string * nat) :
  (forall y, y ∈ p1 -> (snd y < snd best)%nat) ->
  (forall y, y ∈ p2 -> (snd y <= snd best)%nat) ->
  exists q1 b q2,
    p1 ++ best :: p2 ++ rest = q1 ++ b :: q2
    /\ foldl (fun best y => if (snd best <? snd y)%nat then y else best) best rest = b
    /\ (forall y, y ∈ q1 -> (snd y < snd b)%nat)
    /\ (forall y, y ∈ q2 -> (snd y <= snd b)%nat).
Proof.
  revert p1 p2 best. induction rest as [|y rest IH]; intros p1 p2 best H1 H2.
  - exists p1, best, p2. by rewrite app_nil_r.
  - simpl. destruct (Nat.ltb_spec (snd best) (snd y)) as [Hlt | Hge].
    + destruct (IH (p1 ++ best :: p2) [] y) as (q1 & b & q2 & Heq & Hb & Hq1 & Hq2).
      * intros z [Hz | [-> | Hz]%elem_of_cons]%elem_of_app.
        -- specialize (H1 z Hz). lia.
        -- done.
        -- specialize (H2 z Hz). lia.
      * intros z Hz. by apply elem_of_nil in Hz.
      * exists q1, b, q2. split; [|done]. rewrite <- Heq. simpl.
        by rewrite <- app_assoc.
    + destruct (IH p1 (p2 ++ [y]) best) as (q1 & b & q2 & Heq & Hb & Hq1 & Hq2).
      * done.
      * intros z [Hz | Hz]%elem_of_app; [by apply H2|].
        apply list_elem_of_singleton in Hz as ->. done.
      * exists q1, b, q2. split; [|done]. rewrite <- Heq.
        by rewrite <- app_assoc.
Qed.

Lemma most_common_1_spec (c : list (string * nat)) :
  c <> [] ->
  exists q1 b q2,
    c = q1 ++ b :: q2 /\ most_common_1 c = [b]
    /\ (forall y, y ∈ q1 -> (snd y < snd b)%nat)
    /\ (forall y, y ∈ q2 -> (snd y <= snd b)%nat).
Proof.
  destruct c as [|x c]; [done|]. intros _.
  destruct (most_common_fold c [] [] x) as (q1 & b & q2 & Heq & Hb & Hq1 & Hq2).
  - intros y Hy. by apply elem_of_nil in Hy.
  - intros y Hy. by apply elem_of_nil in Hy.
  - exists q1, b, q2. simpl in Heq. unfold most_common_1. by rewrite Hb.
Qed.

Lemma NoDup_split_unique (u1 u2 v1 v2 : list string) (a : string) :
  NoDup (u1 ++ a :: u2) -> u1 ++ a :: u2 = v1 ++ a :: v2 -> u1 = v1.
Proof.
  revert v1. induction u1 as [|x u1 IH]; intros v1 Hnd Heq.
  - destruct v1 as [|y v1]; [done|]. simpl in *. injection Heq as <- Heq.
    apply NoDup_cons in Hnd as [Hnot _]. exfalso. apply Hnot.
    rewrite Heq. apply elem_of_app. right. left.
  - destruct v1 as [|y v1]; simpl in *.
    + injection Heq as -> Heq. apply NoDup_cons in Hnd as [Hnot _].
      exfalso. apply Hnot. apply elem_of_app. right. left.
    + injection Heq as <- Heq. apply NoDup_cons in Hnd as [_ Hnd].
      f_equal. by apply IH.
Qed.

Lemma counter_get_cases (c : list (string * nat)) (k : string) :
  counter_get k c = 0%nat \/ (k, counter_get k c) ∈ c.
Proof.
  unfold counter_get. induction c as [|[k' n] c IH]; [by left|]. simpl.
  destruct (decide (k' = k)) as [-> | Hne].
  - rewrite bool_decide_eq_true_2 by done. right. left.
  - rewrite bool_decide_eq_false_2 by done.
    destruct IH as [IH | IH]; [by left | right; by right].
Qed.

Lemma first_occurrence (l : list string) (x : string) :
  x ∈ l -> exists l1 l2, l = l1 ++ x :: l2 /\ x ∉ l1.
Proof.
  induction l as [|y l IH]; intros Hin; [by apply elem_of_nil in Hin|].
  destruct (decide (y = x)) as [-> | Hne].
  - exists [], l. split; [done | apply not_elem_of_nil].
  - apply elem_of_cons in Hin as [-> | Hin]; [done|].
    destruct (IH Hin) as (l1 & l2 & -> & Hout).
    exists (y :: l1), l2. split; [done|].
    intros [Heq | H]%elem_of_cons; congruence.
Qed.

(** The address [most_common(1)] selects from a non-empty list: it occurs
    in the list, no address occurs more often, and every address seen
    before its first occurrence occurs strictly less often. *)
Lemma most_common_of_list (l : list string) :
  l <> [] ->
  exists a n,
    most_common_1 (Counter l) = [(a, n)]
    /\ n = occurrences a l
    /\ a ∈ l
    /\ (forall b, (occurrences b l <= occurrences a l)%nat)
    /\ exists l1 l2, l = l1 ++ a :: l2 /\ (a ∉ l1)
         /\ forall b, b ∈ l1 -> (occurrences b l < occurrences a l)%nat.
Proof.
  intros Hne.
  assert (Hc : Counter l <> []).
  { destruct l as [|x l]; [done|]. intros Hnil.
    assert (Hx : x ∈ map fst (Counter (x :: l))) by (apply Counter_keys_elem; left).
    rewrite Hnil in Hx. by apply elem_of_nil in Hx. }
  destruct (most_common_1_spec _ Hc) as (q1 & [a n] & q2 & Heq & Hmc & Hq1 & Hq2).
  pose proof (Counter_keys_NoDup l) as Hnd.
  assert (Hmem : forall y, y ∈ Counter l -> snd y = occurrences (fst y) l).
  { intros [k m] Hy. simpl. rewrite <- counter_get_Counter.
    symmetry. by apply counter_entry_get. }
  assert (Hin : (a, n) ∈ Counter l).
  { rewrite Heq. apply elem_of_app. right. left. }
  assert (Hn : n = occurrences a l) by apply (Hmem _ Hin).
  assert (Hal : a ∈ l).
  { apply Counter_keys_elem. apply list_elem_of_In, in_map_iff.
    exists (a, n). split; [done | by apply list_elem_of_In]. }
  exists a, n. split; [done|]. split; [done|]. split; [done|]. split.
  - intros b. rewrite <- Hn, <- (counter_get_Counter l b).
    destruct (counter_get_cases (Counter l) b) as [-> | Hb]; [lia|].
    remember (counter_get b (Counter l)) as m eqn:Hm. clear Hm.
    rewrite Heq in Hb.
    apply elem_of_app in Hb as [Hb | [Hb | Hb]%elem_of_cons].
    + specialize (Hq1 _ Hb). simpl in Hq1. lia.
    + injection Hb as _ ->. lia.
    + specialize (Hq2 _ Hb). simpl in Hq2. lia.
  - destruct (first_occurrence l a Hal) as (l1 & l2 & Hl & Hout).
    exists l1, l2. split; [done|]. split; [done|].
    intros b Hb.
    assert (Hkeys : exists more, map fst (Counter l) = map fst (Counter l1) ++ a :: more).
    { destruct (Counter_keys_prefix (l1 ++ [a]) l2) as [more Hmore].
      rewrite <- app_assoc in Hmore. simpl in Hmore. rewrite <- Hl in Hmore.
      rewrite Counter_snoc, counter_keys_incr in Hmore.
      rewrite decide_False in Hmore by (by rewrite Counter_keys_elem).
      exists more. by rewrite Hmore, <- app_assoc. }
    destruct Hkeys as [more Hkeys].
    assert (Hq : map fst q1 = map fst (Counter l1)).
    { apply (NoDup_split_unique _ (map fst q2) _ more a).
      - rewrite Heq, map_app in Hnd. exact Hnd.
      - rewrite <- Hkeys, Heq, map_app. done. }
    assert (Hbk : b ∈ map fst q1) by (rewrite Hq; by apply Counter_keys_elem).
    apply list_elem_of_In, in_map_iff in Hbk as ([b' m] & Hb' & Hy).
    simpl in Hb'. subst b'. apply list_elem_of_In in Hy.
    specialize (Hq1 _ Hy). simpl in Hq1.
    assert (Hm : m = occurrences b l).
    { apply (Hmem (b, m)). rewrite Heq. apply elem_of_app. by left. }
    lia.
Qed.

End CounterFacts.

(** ** Further properties of the flood detector *)

Module DeauthMore.
Import DeauthDetection DeauthObservations DeauthFacts CounterFacts.

Section Processed.
Variable B : gmap string Q.
Variables (t : Q) (D A : string) (st : State).
Hypothesis Hfree : recently_blocked B A t = false.

Let st' := fst (DetectDeauth B t (Deauth D A) st).
Let w' := prune t (window D st ++ [(t, A)]).

Lemma DetectDeauth_max :
  MaxDeauthCounts st' !! D = Some (Nat.max (default 0%nat (MaxDeauthCounts st !! D)) (length w')).
Proof.
  subst st' w'. unfold DetectDeauth, window. rewrite Hfree. cbv zeta.
  set (n := length (prune t (default [] (DeauthRecords st !! D) ++ [(t, A)]))).
  assert (Hm : (match MaxDeauthCounts st !! D with
                | Some m => if (m <? n)%nat then <[D:=n]> (MaxDeauthCounts st)
                            else MaxDeauthCounts st
                | None => <[D:=n]> (MaxDeauthCounts st)
                end) !! D = Some (Nat.max (default 0%nat (MaxDeauthCounts st !! D)) n)).
  { destruct (MaxDeauthCounts st !! D) as [m|] eqn:Hm; simpl.
    - destruct (Nat.ltb_spec m n).
      + rewrite lookup_insert_eq. f_equal; lia.
      + rewrite Hm. f_equal; lia.
    - rewrite lookup_insert_eq. f_equal; lia. }
  destruct (Threshold <=? n)%nat; [destruct (alert_due _ _ _)|]; exact Hm.
Qed.

Lemma DetectDeauth_max_other (D' : string) :
  D' <> D -> MaxDeauthCounts st' !! D' = MaxDeauthCounts st !! D'.
Proof.
  intros Hne. subst st'. unfold DetectDeauth. rewrite Hfree. cbv zeta.
  set (n := length _).
  assert (Hm : (match MaxDeauthCounts st !! D with
                | Some m => if (m <? n)%nat then <[D:=n]> (MaxDeauthCounts st)
                            else MaxDeauthCounts st
                | None => <[D:=n]> (MaxDeauthCounts st)
                end) !! D' = MaxDeauthCounts st !! D').
  { destruct (MaxDeauthCounts st !! D) as [m|]; [destruct (m <? n)%nat|];
      by rewrite ?lookup_insert_ne. }
  destruct (Threshold <=? n)%nat; [destruct (alert_due _ _ _)|]; exact Hm.
Qed.

Lemma DetectDeauth_last_other (D' : string) :
  D' <> D -> LastAlertTime st' !! D' = LastAlertTime st !! D'.
Proof.
  intros Hne. subst st'. unfold DetectDeauth. rewrite Hfree. cbv zeta.
  destruct (Threshold <=? _)%nat; [destruct (alert_due _ _ _)|]; cbn [fst LastAlertTime].
  - by rewrite lookup_insert_ne.
  - done.
  - by rewrite lookup_delete_ne.
Qed.

Lemma DetectDeauth_last :
  LastAlertTime st' !! D =
  if (Threshold <=? length w')%nat
  then (if alert_due (LastAlertTime st) D t then Some t else LastAlertTime st !! D)
  else None.
Proof.
  subst st' w'. unfold DetectDeauth, window. rewrite Hfree. cbv zeta.
  destruct (Threshold <=? _)%nat; [destruct (alert_due _ _ _)|]; cbn [fst LastAlertTime].
  - apply lookup_insert_eq.
  - done.
  - apply lookup_delete_eq.
Qed.

Lemma DetectDeauth_alerts :
  snd (DetectDeauth B t (Deauth D A) st) =
  if (Threshold <=? length w')%nat
  then (if alert_due (LastAlertTime st) D t
        then [PublishDeauthAlert D (length w') (most_frequent w')
                (Nat.max (default 0%nat (MaxDeauthCounts st !! D)) (length w'))]
        else [])
  else [].
Proof.
  pose proof DetectDeauth_max as Hmax.
  subst st' w'. unfold DetectDeauth, window in *. rewrite Hfree in *. cbv zeta in *.
  destruct (Threshold <=? _)%nat; [destruct (alert_due _ _ _)|]; cbn [fst snd] in *; [|done..].
  cbn [MaxDeauthCounts] in Hmax. by rewrite Hmax.
Qed.

Lemma length_pruned : (1 <= length w' <= length (window D st) + 1)%nat.
Proof.
  subst w'. unfold prune. rewrite List.filter_app, length_app. cbn [List.filter].
  assert (Hnew : Qle_bool (t - fst (t, A)) TimeWindow = true).
  { apply Qle_bool_iff. unfold TimeWindow. simpl. lra. }
  rewrite Hnew. simpl.
  pose proof (List.filter_length_le (fun e => Qle_bool (t - fst e) TimeWindow) (window D st)).
  lia.
Qed.

End Processed.

(** Packets that do not reach the window of [D]: another destination, no
    de-auth layer, or a blocked sender. *)
Lemma DetectDeauth_elsewhere (B : gmap string Q) (t : Q) (pkt : Packet) (D : string)
    (st : State) :
  frame_for D (t, pkt) = false ->
  view D (fst (DetectDeauth B t pkt st)) = view D st
  /\ alerts_to D (snd (DetectDeauth B t pkt st)) = [].
Proof.
  intros Hnot. destruct pkt as [D' A|]; [|done].
  cbn in Hnot. apply bool_decide_eq_false in Hnot.
  destruct (recently_blocked B A t) eqn:Hb.
  { unfold DetectDeauth. by rewrite Hb. }
  split.
  - unfold view. rewrite DetectDeauth_other, DetectDeauth_max_other,
      DetectDeauth_last_other by done. done.
  - rewrite DetectDeauth_alerts by done.
    destruct (Threshold <=? _)%nat; [destruct (alert_due _ _ _)|]; [|done..].
    unfold alerts_to. cbn. by rewrite bool_decide_eq_false_2.
Qed.

Lemma DetectDeauth_local (B : gmap string Q) (t : Q) (D A : string) (st st2 : State) :
  view D st = view D st2 ->
  view D (fst (DetectDeauth B t (Deauth D A) st))
    = view D (fst (DetectDeauth B t (Deauth D A) st2))
  /\ snd (DetectDeauth B t (Deauth D A) st) = snd (DetectDeauth B t (Deauth D A) st2)
  /\ alerts_to D (snd (DetectDeauth B t (Deauth D A) st))
     = snd (DetectDeauth B t (Deauth D A) st).
Proof.
  intros Hview. injection Hview as Hr Hm Hl.
  destruct (recently_blocked B A t) eqn:Hb.
  { unfold DetectDeauth. rewrite Hb. cbn. unfold view. by rewrite Hr, Hm, Hl. }
  assert (Hw : window D st = window D st2) by (unfold window; by rewrite Hr).
  assert (Hdue : alert_due (LastAlertTime st) D t = alert_due (LastAlertTime st2) D t)
    by (unfold alert_due; by rewrite Hl).
  split; [|split].
  - unfold view. rewrite !DetectDeauth_records, !DetectDeauth_max, !DetectDeauth_last by done.
    by rewrite Hw, Hm, Hl, Hdue.
  - rewrite !DetectDeauth_alerts by done. by rewrite Hw, Hm, Hdue.
  - rewrite DetectDeauth_alerts by done.
    destruct (Threshold <=? _)%nat; [destruct (alert_due _ _ _)|]; [|done..].
    unfold alerts_to. cbn. by rewrite bool_decide_eq_true_2.
Qed.

Lemma DetectDeauth_alert_inv (B : gmap string Q) (t : Q) (pkt : Packet) (st : State)
    (a : Alert) :
  a ∈ snd (DetectDeauth B t pkt st) ->
  exists D A,
    pkt = Deauth D A /\ recently_blocked B A t = false
    /\ (Threshold <= length (window D (fst (DetectDeauth B t pkt st))))%nat
    /\ snd (DetectDeauth B t pkt st) = [a]
    /\ a = PublishDeauthAlert D
             (length (window D (fst (DetectDeauth B t pkt st))))
             (most_frequent (window D (fst (DetectDeauth B t pkt st))))
             (default 0%nat (MaxDeauthCounts (fst (DetectDeauth B t pkt st)) !! D)).
Proof.
  intros Hin. destruct pkt as [D A|]; [|by apply elem_of_nil in Hin].
  destruct (recently_blocked B A t) eqn:Hb.
  { unfold DetectDeauth in Hin. rewrite Hb in Hin. by apply elem_of_nil in Hin. }
  exists D, A. split; [done|]. split; [done|].
  rewrite DetectDeauth_window, DetectDeauth_max by done.
  rewrite DetectDeauth_alerts in * by done.
  destruct (Nat.leb_spec Threshold (length (prune t (window D st ++ [(t, A)]))));
    [|by apply elem_of_nil in Hin].
  destruct (alert_due _ _ _); [|by apply elem_of_nil in Hin].
  apply list_elem_of_singleton in Hin as ->. done.
Qed.

(** X1.  Every alert the detector publishes is about the destination of
    the frame just handled, a frame the block cooldown did not suppress;
    its frame count is the length of that destination's window, at least
    the threshold and at most one more than before the frame; its maximum is
    the recorded maximum of the destination and is not below the frame
    count. *)
Theorem alert_payload_sound (B : gmap string Q) (t : Q) (pkt : Packet) (st : State)
    (a : Alert) :
  a ∈ snd (DetectDeauth B t pkt st) ->
  exists D A,
    pkt = Deauth D A /\ recently_blocked B A t = false
    /\ snd (DetectDeauth B t pkt st) = [a]
    /\ destination a = D
    /\ frame_count a = length (window D (fst (DetectDeauth B t pkt st)))
    /\ (Threshold <= frame_count a <= length (window D st) + 1)%nat
    /\ max_frame_count a
       = default 0%nat (MaxDeauthCounts (fst (DetectDeauth B t pkt st)) !! D)
    /\ (frame_count a <= max_frame_count a)%nat
    /\ spoofed a = true /\ time_window a = TimeWindow.
Proof.
  intros Hin.
  destruct (DetectDeauth_alert_inv B t pkt st a Hin) as (D & A & -> & Hb & Hth & Hone & Ha).
  exists D, A. split; [done|]. split; [done|]. split; [done|].
  rewrite DetectDeauth_window, DetectDeauth_max in * by done.
  pose proof (length_pruned t D A st) as Hlen. clear Hin Hone. subst a.
  cbn [destination frame_count max_frame_count spoofed time_window
       PublishDeauthAlert default].
  unfold id. repeat split; try done; lia.
Qed.

(** Worked instance: the fifteenth frame of the alerting trace. *)
Lemma alert_payload_sound_witness :
  exists D A,
    alert_frame = Deauth D A /\ recently_blocked ∅ A (45#10) = false
    /\ snd (DetectDeauth ∅ (45#10) alert_frame before_alert) = [the_alert]
    /\ destination the_alert = D
    /\ frame_count the_alert
       = length (window D (fst (DetectDeauth ∅ (45#10) alert_frame before_alert)))
    /\ (Threshold <= frame_count the_alert <= length (window D before_alert) + 1)%nat
    /\ max_frame_count the_alert
       = default 0%nat
           (MaxDeauthCounts (fst (DetectDeauth ∅ (45#10) alert_frame before_alert)) !! D)
    /\ (frame_count the_alert <= max_frame_count the_alert)%nat
    /\ spoofed the_alert = true /\ time_window the_alert = TimeWindow.
Proof.
  apply (alert_payload_sound ∅ (45#10) alert_frame before_alert the_alert).
  assert (H : snd (DetectDeauth ∅ (45#10) alert_frame before_alert) = [the_alert])
    by (vm_compute; reflexivity).
  rewrite H. left.
Defined.




(** X3.  The attacker an alert names occurs in the destination's window,
    no address occurs there more often, and every address that entered the
    window before its first frame occurs strictly less often (ties go to the
    address seen first).  In particular the "Unknown" fallback is never
    taken. *)
Theorem most_frequent_attacker_maximal (B : gmap string Q) (t : Q) (pkt : Packet)
    (st : State) (a : Alert) :
  a ∈ snd (DetectDeauth B t pkt st) ->
  let l := map snd (window (destination a) (fst (DetectDeauth B t pkt st))) in
  let m := most_frequent_attacker a in
  m ∈ l
  /\ (forall b, (occurrences b l <= occurrences m l)%nat)
  /\ exists l1 l2, l = l1 ++ m :: l2 /\ (m ∉ l1)
       /\ forall b, b ∈ l1 -> (occurrences b l < occurrences m l)%nat.
Proof.
  intros Hin l m.
  destruct (DetectDeauth_alert_inv B t pkt st a Hin) as (D & A & -> & Hb & Hth & _ & Ha).
  assert (HD : destination a = D) by (by rewrite Ha).
  subst l m. rewrite HD.
  set (w := window D (fst (DetectDeauth B t (Deauth D A) st))) in *.
  assert (Hne : map snd w <> []).
  { destruct w; [|done]. unfold Threshold in Hth. simpl in Hth. lia. }
  destruct (most_common_of_list (map snd w) Hne) as (x & n & Hmc & _ & Hx & Hmax & Htie).
  assert (Hm : most_frequent_attacker a = x).
  { rewrite Ha. cbn. unfold most_frequent. by rewrite Hmc. }
  rewrite Hm. done.
Qed.

(** Worked instance: the alert of the alerting trace names the only
    sender. *)
Lemma most_frequent_attacker_maximal_witness :
  let l := map snd (window (destination the_alert)
                      (fst (DetectDeauth ∅ (45#10) alert_frame before_alert))) in
  let m := most_frequent_attacker the_alert in
  m ∈ l
  /\ (forall b, (occurrences b l <= occurrences m l)%nat)
  /\ exists l1 l2, l = l1 ++ m :: l2 /\ (m ∉ l1)
       /\ forall b, b ∈ l1 -> (occurrences b l < occurrences m l)%nat.
Proof.
  apply (most_frequent_attacker_maximal ∅ (45#10) alert_frame before_alert the_alert).
  assert (H : snd (DetectDeauth ∅ (45#10) alert_frame before_alert) = [the_alert])
    by (vm_compute; reflexivity).
  rewrite H. left.
Defined.

(** X4.  A handled frame that leaves its destination's window below the
    threshold clears the destination's last-alert time; so when the next
    handled frame for that destination brings the window to the threshold it
    raises an alert whatever its clock reading, even less than a second
    after the previous alert. *)
Theorem quiet_frame_rearms_alert (B1 B2 : gmap string Q) (t1 t2 : Q)
    (D A1 A2 : string) (st : State) :
  recently_blocked B1 A1 t1 = false ->
  recently_blocked B2 A2 t2 = false ->
  (length (window D (fst (DetectDeauth B1 t1 (Deauth D A1) st))) < Threshold)%nat ->
  (Threshold <= length (window D
      (fst (DetectDeauth B2 t2 (Deauth D A2)
              (fst (DetectDeauth B1 t1 (Deauth D A1) st))))))%nat ->
  LastAlertTime (fst (DetectDeauth B1 t1 (Deauth D A1) st)) !! D = None
  /\ exists a,
      snd (DetectDeauth B2 t2 (Deauth D A2) (fst (DetectDeauth B1 t1 (Deauth D A1) st)))
        = [a]
      /\ destination a = D /\ frame_count a = Threshold.
Proof.
  intros Hb1 Hb2 Hquiet Hloud.
  set (st1 := fst (DetectDeauth B1 t1 (Deauth D A1) st)) in *.
  assert (Hlast : LastAlertTime st1 !! D = None).
  { subst st1. rewrite DetectDeauth_last by done.
    rewrite DetectDeauth_window in Hquiet by done.
    apply Nat.leb_gt in Hquiet. by rewrite Hquiet. }
  split; [done|].
  rewrite DetectDeauth_window in Hloud by done.
  pose proof (length_pruned t2 D A2 st1) as Hlen.
  rewrite DetectDeauth_alerts by done.
  apply Nat.leb_le in Hloud as Hloud'. rewrite Hloud'.
  unfold alert_due. rewrite Hlast.
  eexists. split; [reflexivity|]. cbn. split; [done|]. lia.
Qed.

(** Worked instance: after the alert at 4.5 s a frame at 5.2 s finds
    fourteen entries left, and the frame at 5.3 s raises a second alert. *)
Lemma quiet_frame_rearms_alert_witness :
  exists a,
    snd (DetectDeauth ∅ (53#10) (Deauth "02:00:00:00:00:01" "66:77:88:99:aa:bb")
           (fst (DetectDeauth ∅ (52#10) (Deauth "02:00:00:00:00:01" "66:77:88:99:aa:bb")
                   (fst (run ∅ alerted_trace initial))))) = [a]
    /\ destination a = "02:00:00:00:00:01" /\ frame_count a = Threshold.
Proof.
  refine (proj2 (quiet_frame_rearms_alert ∅ ∅ (52#10) (53#10) "02:00:00:00:00:01"
    "66:77:88:99:aa:bb" "66:77:88:99:aa:bb" (fst (run ∅ alerted_trace initial)) _ _ _ _)).
  - reflexivity.
  - reflexivity.
  - vm_compute. lia.
  - vm_compute. lia.
Defined.

Lemma filter_sublist {X : Type} (f : X -> bool) (l : list X) :
  List.filter f l `sublist_of` l.
Proof.
  induction l as [|x l IH]; simpl; [constructor|].
  destruct (f x); by constructor.
Qed.

(** X5.  Handling a frame keeps the order of its destination's window:
    the new window is what remains of the old entries, in their order,
    followed by the frame itself, which always survives the pruning; the
    window of a handled frame is therefore never empty. *)
Theorem window_keeps_order (B : gmap string Q) (t : Q) (D A : string) (st : State) :
  recently_blocked B A t = false ->
  exists kept,
    window D (fst (DetectDeauth B t (Deauth D A) st)) = kept ++ [(t, A)]
    /\ kept `sublist_of` window D st
    /\ kept = prune t (window D st).
Proof.
  intros Hb. exists (prune t (window D st)).
  rewrite DetectDeauth_window by done. split; [|split; [apply filter_sublist | done]].
  unfold prune. rewrite List.filter_app. cbn [List.filter].
  assert (Hnew : Qle_bool (t - fst (t, A)) TimeWindow = true).
  { apply Qle_bool_iff. unfold TimeWindow. simpl. lra. }
  by rewrite Hnew.
Qed.

(** Worked instance: a frame at 6 s after a frame at 0 s. *)
Lemma window_keeps_order_witness :
  exists kept,
    window "02:00:00:00:00:01"
      (fst (DetectDeauth ∅ 6 (Deauth "02:00:00:00:00:01" "66:77:88:99:aa:bb")
              (fst (DetectDeauth ∅ 0 (Deauth "02:00:00:00:00:01" "66:77:88:99:aa:bb")
                      initial))))
      = kept ++ [(6%Q, "66:77:88:99:aa:bb")]
    /\ kept `sublist_of`
         window "02:00:00:00:00:01"
           (fst (DetectDeauth ∅ 0 (Deauth "02:00:00:00:00:01" "66:77:88:99:aa:bb")
                   initial))
    /\ kept = prune 6 (window "02:00:00:00:00:01"
           (fst (DetectDeauth ∅ 0 (Deauth "02:00:00:00:00:01" "66:77:88:99:aa:bb")
                   initial))).
Proof.
  refine (window_keeps_order ∅ 6 "02:00:00:00:00:01" "66:77:88:99:aa:bb" _ _).
  reflexivity.
Defined.

Lemma run_local (B : gmap string Q) (D : string) (frames : list (Q * Packet)) :
  forall st st2 : State,
    view D st = view D st2 ->
    alerts_to D (snd (run B frames st))
      = snd (run B (List.filter (frame_for D) frames) st2)
    /\ view D (fst (run B frames st))
       = view D (fst (run B (List.filter (frame_for D) frames) st2)).
Proof.
  induction frames as [|[t pkt] frames IH]; intros st st2 Hview; [done|].
  rewrite deauth_run_cons. cbn [fst snd List.filter].
  unfold alerts_to. rewrite List.filter_app.
  fold (alerts_to D (snd (DetectDeauth B t pkt st))).
  fold (alerts_to D (snd (run B frames (fst (DetectDeauth B t pkt st))))).
  destruct (frame_for D (t, pkt)) eqn:Hfor.
  - destruct pkt as [D' A|]; [|done]. cbn in Hfor.
    apply bool_decide_eq_true in Hfor as ->.
    destruct (DetectDeauth_local B t D A st st2 Hview) as (Hv & Ha & Hto).
    rewrite deauth_run_cons. cbn [fst snd].
    destruct (IH _ _ Hv) as [IHa IHv].
    by rewrite Hto, Ha, IHa, IHv.
  - destruct (DetectDeauth_elsewhere B t pkt D st Hfor) as [Hv Hnone].
    rewrite Hnone. cbn [app]. apply IH. by rewrite Hv.
Qed.

(** X6.  Destinations do not interfere: the alerts a trace raises about a
    destination, and what the dictionaries end up holding for it, are those
    of the trace reduced to the de-auth frames addressed to that
    destination. *)
Theorem destination_isolation (B : gmap string Q) (D : string)
    (frames : list (Q * Packet)) (st : State) :
  alerts_to D (snd (run B frames st))
    = snd (run B (List.filter (frame_for D) frames) st)
  /\ view D (fst (run B frames st))
     = view D (fst (run B (List.filter (frame_for D) frames) st)).
Proof. by apply run_local. Qed.

Lemma DetectDeauth_window_elsewhere (B : gmap string Q) (t : Q) (pkt : Packet)
    (D : string) (st : State) :
  frame_for D (t, pkt) = false ->
  window D (fst (DetectDeauth B t pkt st)) = window D st.
Proof.
  intros Hnot. destruct (DetectDeauth_elsewhere B t pkt D st Hnot) as [Hv _].
  injection Hv as Hr _ _. unfold window. by rewrite Hr.
Qed.

Lemma DetectDeauth_span (B : gmap string Q) (t : Q) (pkt : Packet) (st : State) :
  window_span_ok st -> window_span_ok (fst (DetectDeauth B t pkt st)).
Proof.
  intros Hok D t_last a_last e.
  destruct (frame_for D (t, pkt)) eqn:Hfor.
  - destruct pkt as [D' A|]; [|done]. cbn in Hfor.
    apply bool_decide_eq_true in Hfor as ->.
    destruct (recently_blocked B A t) eqn:Hb.
    { unfold DetectDeauth. rewrite Hb. apply Hok. }
    rewrite DetectDeauth_window by done.
    assert (Hw : prune t (window D st ++ [(t, A)]) = prune t (window D st) ++ [(t, A)]).
    { unfold prune. rewrite List.filter_app. cbn [List.filter].
      assert (Hnew : Qle_bool (t - fst (t, A)) TimeWindow = true).
      { apply Qle_bool_iff. unfold TimeWindow. simpl. lra. }
      by rewrite Hnew. }
    intros Hlast He. rewrite Hw, last_snoc in Hlast. injection Hlast as <- <-.
    by apply prune_spec in He as [_ He].
  - rewrite DetectDeauth_window_elsewhere by done. apply Hok.
Qed.

(** X20.  In every state the detector reaches, each window spans at most
    [TimeWindow] (5 s): no entry is more than 5 s older than the newest
    entry of its window, whatever frames for other destinations, blocked
    senders or clock steps came in between.  The bound is relative to the
    last frame handled for that destination, not to the current time. *)
Theorem window_span_invariant (B : gmap string Q) (frames : list (Q * Packet))
    (st : State) :
  window_span_ok st -> window_span_ok (fst (run B frames st)).
Proof.
  revert st. induction frames as [|[t pkt] frames IH]; intros st Hok; [done|].
  rewrite deauth_run_cons. cbn [fst]. by apply IH, DetectDeauth_span.
Qed.

(** Worked instance: the mixed trace from the initial state. *)
Lemma window_span_invariant_witness :
  window_span_ok (fst (run ∅ mixed_trace initial)).
Proof.
  refine (window_span_invariant ∅ mixed_trace initial _).
  intros D t_last a_last e Hlast. unfold window in Hlast. cbn in Hlast.
  rewrite lookup_empty in Hlast. discriminate Hlast.
Defined.

Lemma run_silent_below (B : gmap string Q) (D : string) (frames : list (Q * Packet)) :
  forall st : State,
    (length (window D st) + length (List.filter (frame_for D) frames) < Threshold)%nat ->
    alerts_to D (snd (run B frames st)) = [].
Proof.
  induction frames as [|[t pkt] frames IH]; intros st Hlen; [done|].
  rewrite deauth_run_cons. cbn [snd]. unfold alerts_to. rewrite List.filter_app.
  fold (alerts_to D (snd (DetectDeauth B t pkt st))).
  fold (alerts_to D (snd (run B frames (fst (DetectDeauth B t pkt st))))).
  cbn [List.filter] in Hlen.
  destruct (frame_for D (t, pkt)) eqn:Hfor.
  - destruct pkt as [D' A|]; [|done]. cbn in Hfor.
    apply bool_decide_eq_true in Hfor as ->. cbn [length] in Hlen.
    destruct (recently_blocked B A t) eqn:Hb.
    { unfold DetectDeauth at 1 2. rewrite Hb. cbn [fst snd]. apply IH. lia. }
    pose proof (length_pruned t D A st) as Hp.
    rewrite IH by (rewrite DetectDeauth_window by done; lia).
    rewrite DetectDeauth_alerts by done.
    destruct (Nat.leb_spec Threshold (length (prune t (window D st ++ [(t, A)]))));
      [lia | done].
  - destruct (DetectDeauth_elsewhere B t pkt D st Hfor) as [_ ->].
    cbn [app]. apply IH. by rewrite DetectDeauth_window_elsewhere.
Qed.

(** X21.  No alert about a destination is raised before fifteen de-auth
    frames addressed to it have come in: starting with an empty window for
    the destination, a trace with fewer than [Threshold] such frames raises
    no alert about it, however many frames it holds for other
    destinations. *)
Theorem no_alert_before_threshold (B : gmap string Q) (D : string)
    (frames : list (Q * Packet)) (st : State) :
  window D st = [] ->
  (length (List.filter (frame_for D) frames) < Threshold)%nat ->
  alerts_to D (snd (run B frames st)) = [].
Proof.
  intros Hempty Hlen. apply run_silent_below. rewrite Hempty. simpl. lia.
Qed.

(** Worked instance: the first fourteen frames of the alerting trace. *)
Lemma no_alert_before_threshold_witness :
  alerts_to "02:00:00:00:00:01" (snd (run ∅ (take 14 alerted_trace) initial)) = [].
Proof.
  refine (no_alert_before_threshold ∅ "02:00:00:00:00:01" (take 14 alerted_trace)
            initial _ _).
  - reflexivity.
  - vm_compute. lia.
Defined.




End DeauthMore.

(** ** Further facts on [lower], [split_colon] and [join] *)

Module StringFacts.
Import RogueObservations.

Lemma lower_ascii_idem (c : ascii) : lower_ascii (lower_ascii c) = lower_ascii c.
Proof. destruct c as [[] [] [] [] [] [] [] []]; reflexivity. Qed.

Lemma lower_ascii_colon (c : ascii) : Ascii.eqb (lower_ascii c) ":" = Ascii.eqb c ":".
Proof. destruct c as [[] [] [] [] [] [] [] []]; reflexivity. Qed.

Lemma lower_idem (s : string) : lower (lower s) = lower s.
Proof. induction s as [|c s IH]; simpl; [done|]. by rewrite lower_ascii_idem, IH. Qed.

Lemma lower_app (s1 s2 : string) : lower (s1 +:+ s2) = lower s1 +:+ lower s2.
Proof. induction s1 as [|c s1 IH]; simpl; [done|]. by rewrite IH. Qed.

Lemma lower_join (l : list string) : lower (join ":" l) = join ":" (map lower l).
Proof.
  induction l as [|p l IH]; [done|].
  destruct l as [|q l]; [done|].
  change (join ":" (p :: q :: l)) with (p +:+ ":" +:+ join ":" (q :: l)).
  change (join ":" (map lower (p :: q :: l)))
    with (lower p +:+ ":" +:+ join ":" (map lower (q :: l))).
  by rewrite !lower_app, IH.
Qed.

Lemma split_colon_lower (s : string) : split_colon (lower s) = map lower (split_colon s).
Proof.
  induction s as [|c s IH]; [done|]. simpl.
  rewrite lower_ascii_colon, IH.
  destruct (Ascii.eqb c ":"); [done|].
  pose proof (split_colon_nonempty s) as Hne.
  by destruct (split_colon s).
Qed.

Lemma colon_free_cons (c : ascii) (s : string) :
  colon_free (String c s) <-> c <> ":"%char /\ colon_free s.
Proof.
  unfold colon_free. simpl. split.
  - intros H. split; [intros ->; apply H; by left | intros Hin; apply H; by right].
  - intros [Hc Hs] [Heq | Hin]; [by apply Hc | by apply Hs].
Qed.

Lemma split_colon_parts_free (s : string) : Forall colon_free (split_colon s).
Proof.
  induction s as [|c s IH]; simpl.
  - repeat constructor. intros [].
  - destruct (Ascii.eqb_spec c ":") as [-> | Hne].
    + constructor; [intros [] | done].
    + pose proof (split_colon_nonempty s) as Hs.
      destruct (split_colon s) as [|p ps]; [done|].
      apply Forall_cons in IH as [Hp Hps]. constructor; [|done].
      by apply colon_free_cons.
Qed.

Lemma split_colon_free (p : string) : colon_free p -> split_colon p = [p].
Proof.
  induction p as [|c p IH]; [done|]. intros [Hc Hp]%colon_free_cons. simpl.
  destruct (Ascii.eqb_spec c ":") as [-> | _]; [done|]. by rewrite IH.
Qed.

Lemma split_colon_app (p rest : string) :
  colon_free p -> split_colon (p +:+ ":" +:+ rest) = p :: split_colon rest.
Proof.
  induction p as [|c p IH]; [done|]. intros [Hc Hp]%colon_free_cons. simpl.
  destruct (Ascii.eqb_spec c ":") as [-> | _]; [done|]. by rewrite IH.
Qed.

Lemma split_join_colon (parts : list string) :
  parts <> [] -> Forall colon_free parts -> split_colon (join ":" parts) = parts.
Proof.
  intros Hne Hfree. induction Hfree as [|p parts Hp Hfree IH]; [done|].
  destruct parts as [|q parts].
  - simpl. by apply split_colon_free.
  - change (join ":" (p :: q :: parts)) with (p +:+ ":" +:+ join ":" (q :: parts)).
    rewrite split_colon_app by done. by rewrite IH.
Qed.


Lemma GetPrefix_lower (x : string) :
  RogueAPDetection.GetPrefix (lower x) = RogueAPDetection.GetPrefix x.
Proof.
  rewrite !RogueFacts.GetPrefix_spec, split_colon_lower.
  rewrite firstn_map, <- lower_join. apply lower_idem.
Qed.


(** X7.  Splitting on ":" and joining with ":" are inverse to each other:
    joining the parts of any string gives the string back, and splitting the
    join of a non-empty list of colon-free parts gives the list back; the
    parts of a split are never empty in number and never contain a colon. *)
Theorem split_join_round_trip (s : string) (parts : list string) :
  join ":" (split_colon s) = s
  /\ split_colon s <> []
  /\ Forall colon_free (split_colon s)
  /\ (parts <> [] -> Forall colon_free parts -> split_colon (join ":" parts) = parts).
Proof.
  split; [apply join_split_colon|]. split; [apply split_colon_nonempty|].
  split; [apply split_colon_parts_free | apply split_join_colon].
Qed.

(** Worked instance: the six octets of an address. *)
Lemma split_join_round_trip_witness :
  split_colon (join ":" ["aa"; "bb"; "cc"; "dd"; "ee"; "ff"])
    = ["aa"; "bb"; "cc"; "dd"; "ee"; "ff"].
Proof.
  refine (proj2 (proj2 (proj2 (split_join_round_trip ""
    ["aa"; "bb"; "cc"; "dd"; "ee"; "ff"]))) _ _).
  - discriminate.
  - repeat (apply List.Forall_cons; [intros H; cbv in H; intuition discriminate|]).
    apply List.Forall_nil.
Defined.


(** *** Stripping *)

Lemma strip_front_cases (back : bool) (l : list nat) :
  (starts_space back l = false /\ strip_front back l = l)
  \/ (starts_space back l = true
      /\ exists pre l', l = pre ++ l' /\ pre <> []
                        /\ strip_front back l = strip_front back l').
Proof.
  destruct l as [|a l1]; [by left|].
  cbn [strip_front starts_space].
  destruct (space1 a).
  { right. split; [done|]. by exists [a], l1. }
  destruct l1 as [|b l2]; [by left|].
  destruct (if back then space2 b a else space2 a b).
  { right. split; [done|]. by exists [a; b], l2. }
  destruct l2 as [|c l3]; [by left|].
  destruct (if back then space3 c b a else space3 a b c).
  - right. split; [done|]. by exists [a; b; c], l3.
  - by left.
Qed.

Lemma strip_front_suffix (back : bool) (l : list nat) :
  exists pre, l = pre ++ strip_front back l /\ starts_space back (strip_front back l) = false.
Proof.
  induction l as [l IH] using (induction_ltof1 _ (@length nat)). unfold ltof in IH.
  destruct (strip_front_cases back l) as [[Hs ->] | (_ & pre & l' & -> & Hpre & ->)].
  - by exists [].
  - destruct (IH l') as (pre' & Hl' & Hs).
    { rewrite length_app. destruct pre; [done|]. simpl. lia. }
    exists (pre ++ pre'). rewrite <- app_assoc. by rewrite <- Hl'.
Qed.

Lemma strip_front_fixed (back : bool) (l : list nat) :
  starts_space back l = false -> strip_front back l = l.
Proof.
  intros Hs. destruct (strip_front_cases back l) as [[_ H] | [H _]]; congruence.
Qed.

Lemma starts_space_prefix (p q : list nat) :
  starts_space false (p ++ q) = false -> starts_space false p = false.
Proof.
  destruct p as [|a [|b [|c p]]]; [done| | |done]; simpl.
  - destruct (space1 a); [done|]. done.
  - destruct (space1 a); [done|]. simpl. destruct (space2 a b); [done|]. done.
Qed.

Lemma strip_bytes_idem (l : list nat) : strip_bytes (strip_bytes l) = strip_bytes l.
Proof.
  unfold strip_bytes.
  destruct (strip_front_suffix false l) as (pre & _ & Hy).
  set (y := strip_front false l) in *.
  destruct (strip_front_suffix true (rev y)) as (pre' & Hrev & Hz).
  set (z := strip_front true (rev y)) in *.
  assert (Hyz : y = rev z ++ rev pre').
  { rewrite <- rev_app_distr, <- Hrev. by rewrite rev_involutive. }
  rewrite (strip_front_fixed false (rev z)).
  - rewrite rev_involutive. by rewrite (strip_front_fixed true z).
  - apply (starts_space_prefix _ (rev pre')). by rewrite <- Hyz.
Qed.

Lemma strip_bytes_subset (l : list nat) (x : nat) : x ∈ strip_bytes l -> x ∈ l.
Proof.
  unfold strip_bytes. intros Hx.
  destruct (strip_front_suffix false l) as (pre & Hl & _).
  destruct (strip_front_suffix true (rev (strip_front false l))) as (pre' & Hrev & _).
  rewrite Hl. apply elem_of_app. right.
  apply list_elem_of_In, in_rev. rewrite Hrev. apply in_or_app. right.
  by apply in_rev, list_elem_of_In.
Qed.

Lemma bytes_of_bytes (l : list nat) :
  Forall (fun n => (n < 256)%nat) l -> bytes_of (of_bytes l) = l.
Proof.
  intros Hl. unfold bytes_of, of_bytes.
  rewrite String.list_ascii_of_string_of_list_ascii.
  induction Hl as [|n l Hn _ IH]; [done|]. simpl.
  by rewrite nat_ascii_embedding, IH.
Qed.

Lemma bytes_of_bound (s : string) : Forall (fun n => (n < 256)%nat) (bytes_of s).
Proof.
  unfold bytes_of. apply Forall_forall. intros n Hn.
  apply list_elem_of_In, in_map_iff in Hn as (c & <- & _). apply nat_ascii_bounded.
Qed.

Lemma strip_unfold (s : string) : strip s = of_bytes (strip_bytes (bytes_of s)).
Proof. done. Qed.

Lemma strip_idem (s : string) : strip (strip s) = strip s.
Proof.
  rewrite !strip_unfold, bytes_of_bytes; [by rewrite strip_bytes_idem|].
  apply Forall_forall. intros n Hn%strip_bytes_subset.
  pose proof (bytes_of_bound s) as Hb. rewrite Forall_forall in Hb. by apply Hb.
Qed.

Lemma strip_chars (s : string) (c : ascii) :
  In c (String.list_ascii_of_string (strip s)) -> In c (String.list_ascii_of_string s).
Proof.
  rewrite strip_unfold. unfold of_bytes.
  rewrite String.list_ascii_of_string_of_list_ascii.
  intros (n & <- & Hn)%in_map_iff.
  apply list_elem_of_In, strip_bytes_subset in Hn.
  unfold bytes_of in Hn. apply list_elem_of_In, in_map_iff in Hn as (c & <- & Hc).
  by rewrite ascii_nat_embedding.
Qed.

Lemma replace_nul_free (s : string) :
  ~ has_nul (replace (String "000"%char EmptyString) "" s).
Proof.
  unfold has_nul, replace. induction s as [|c s IH]; [intros []|].
  cbn [replace_from String.prefix].
  destruct (ascii_dec "000" c) as [<- | Hne].
  - destruct s; exact IH.
  - simpl. intros [Heq | Hin]; [by apply Hne | by apply IH].
Qed.

End StringFacts.

(** ** Further properties of the trust store and the classifier *)

Module RogueMore.
Import RogueAPDetection RogueObservations RogueFacts StringFacts.

(** X9.  For a beacon whose normalised SSID is a key of the personal
    mapping, whatever the public mapping holds: if the lower-cased BSSID is
    in the stored list nothing is published and nothing changes; otherwise,
    unless the pair was alerted before, one [rogue_ap] alert of network type
    "personal" is published with the detected BSSID and the whole stored
    list, and the pair is remembered; for a pair alerted before nothing is
    published. *)
Theorem personal_beacon_classified (info : option string) (addr2 : string)
    (Allowed : list string) (st : State) :
  PersonalTrusted st !! beacon_ssid info = Some Allowed ->
  let SSID := beacon_ssid info in
  let BSSID := lower addr2 in
  (BSSID ∈ Allowed -> DetectRogue (Beacon info addr2) st = (st, []))
  /\ (BSSID ∉ Allowed -> (SSID, BSSID) ∉ AlertedRogues st ->
      DetectRogue (Beacon info addr2) st
        = (add_alerted (SSID, BSSID) st, [RoguePersonal SSID BSSID Allowed])
      /\ network_type (RoguePersonal SSID BSSID Allowed) = Some "personal")
  /\ (BSSID ∉ Allowed -> (SSID, BSSID) ∈ AlertedRogues st ->
      DetectRogue (Beacon info addr2) st = (st, [])).
Proof.
  intros Hpers SSID BSSID. unfold DetectRogue. fold SSID BSSID.
  fold SSID in Hpers. rewrite Hpers.
  split; [|split].
  - intros Hin. by rewrite decide_True.
  - intros Hout Hnew. by rewrite decide_False, decide_False.
  - intros Hout Hold. by rewrite decide_False, decide_True.
Qed.

(** Worked instance: the home network from an address that differs in the
    last octet, then the same beacon again. *)
Lemma personal_beacon_classified_witness :
  DetectRogue home_rogue example_trust
    = (add_alerted (beacon_ssid (Some "HomeNet"), lower "AA:BB:CC:DD:EE:00") example_trust,
       [RoguePersonal (beacon_ssid (Some "HomeNet")) (lower "AA:BB:CC:DD:EE:00")
          ["aa:bb:cc:dd:ee:ff"]])
  /\ DetectRogue home_rogue (fst (DetectRogue home_rogue example_trust))
     = (fst (DetectRogue home_rogue example_trust), []).
Proof.
  split.
  - refine (proj1 (proj1 (proj2 (personal_beacon_classified (Some "HomeNet")
      "AA:BB:CC:DD:EE:00" ["aa:bb:cc:dd:ee:ff"] example_trust _)) _ _)).
    + reflexivity.
    + intros H. apply list_elem_of_singleton in H. discriminate H.
    + exact (not_elem_of_empty _).
  - refine (proj2 (proj2 (personal_beacon_classified (Some "HomeNet")
      "AA:BB:CC:DD:EE:00" ["aa:bb:cc:dd:ee:ff"]
      (fst (DetectRogue home_rogue example_trust)) _)) _ _).
    + reflexivity.
    + intros H. apply list_elem_of_singleton in H. discriminate H.
    + apply elem_of_union_l, elem_of_singleton. reflexivity.
Defined.

(** X10.  Every alert [DetectRogue] publishes is justified: the packet is
    a beacon whose normalised SSID is a key of the trust store, the
    lower-cased BSSID (or, under a public SSID that is not personal, its
    prefix) is outside the list stored for that SSID, the alert carries
    exactly that list, and the pair had not been alerted before.  A beacon
    of an SSID outside the trust store, or from an allowed address, never
    raises an alert. *)
Theorem rogue_alert_sound (pkt : Packet) (st : State) (a : Alert) :
  a ∈ snd (DetectRogue pkt st) ->
  exists info addr2,
    pkt = Beacon info addr2
    /\ snd (DetectRogue pkt st) = [a]
    /\ ((beacon_ssid info, lower addr2) ∉ AlertedRogues st)
    /\ ((exists expected,
           PersonalTrusted st !! beacon_ssid info = Some expected
           /\ (lower addr2 ∉ expected)
           /\ a = RoguePersonal (beacon_ssid info) (lower addr2) expected)
        \/ (exists expected,
              PersonalTrusted st !! beacon_ssid info = None
              /\ PublicTrusted st !! beacon_ssid info = Some expected
              /\ (GetPrefix (lower addr2) ∉ expected)
              /\ a = RoguePublic (beacon_ssid info) (lower addr2)
                       (GetPrefix (lower addr2)) expected)).
Proof.
  intros Hin. destruct pkt as [info addr2|]; [|by apply elem_of_nil in Hin].
  exists info, addr2. split; [done|]. revert Hin. unfold DetectRogue.
  destruct (PersonalTrusted st !! beacon_ssid info) as [exp|] eqn:Hpers.
  - destruct (decide (lower addr2 ∈ exp)); [intros H; by apply elem_of_nil in H|].
    destruct (decide ((beacon_ssid info, lower addr2) ∈ AlertedRogues st));
      [intros H; by apply elem_of_nil in H|].
    cbn [snd]. intros ->%list_elem_of_singleton.
    split; [done|]. split; [done|]. left. by exists exp.
  - destruct (PublicTrusted st !! beacon_ssid info) as [exp|] eqn:Hpub; cbv zeta.
    + destruct (decide (GetPrefix (lower addr2) ∈ exp));
        [intros H; by apply elem_of_nil in H|].
      destruct (decide ((beacon_ssid info, lower addr2) ∈ AlertedRogues st));
        [intros H; by apply elem_of_nil in H|].
      cbn [snd]. intros ->%list_elem_of_singleton.
      split; [done|]. split; [done|]. right. by exists exp.
    + destruct (decide (NormaliseSSID (beacon_ssid info) = ""));
        intros H; by apply elem_of_nil in H.
Qed.

(** Worked instance: the alert for the home network. *)
Lemma rogue_alert_sound_witness :
  exists info addr2,
    home_rogue = Beacon info addr2
    /\ snd (DetectRogue home_rogue example_trust)
       = [RoguePersonal "HomeNet" "aa:bb:cc:dd:ee:00" ["aa:bb:cc:dd:ee:ff"]]
    /\ ((beacon_ssid info, lower addr2) ∉ AlertedRogues example_trust)
    /\ ((exists expected,
           PersonalTrusted example_trust !! beacon_ssid info = Some expected
           /\ (lower addr2 ∉ expected)
           /\ RoguePersonal "HomeNet" "aa:bb:cc:dd:ee:00" ["aa:bb:cc:dd:ee:ff"]
              = RoguePersonal (beacon_ssid info) (lower addr2) expected)
        \/ (exists expected,
              PersonalTrusted example_trust !! beacon_ssid info = None
              /\ PublicTrusted example_trust !! beacon_ssid info = Some expected
              /\ (GetPrefix (lower addr2) ∉ expected)
              /\ RoguePersonal "HomeNet" "aa:bb:cc:dd:ee:00" ["aa:bb:cc:dd:ee:ff"]
                 = RoguePublic (beacon_ssid info) (lower addr2)
                     (GetPrefix (lower addr2)) expected)).
Proof.
  apply (rogue_alert_sound home_rogue example_trust
           (RoguePersonal "HomeNet" "aa:bb:cc:dd:ee:00" ["aa:bb:cc:dd:ee:ff"])).
  assert (H : snd (DetectRogue home_rogue example_trust)
              = [RoguePersonal "HomeNet" "aa:bb:cc:dd:ee:00" ["aa:bb:cc:dd:ee:ff"]])
    by (vm_compute; reflexivity).
  rewrite H. left.
Defined.

(** X11.  The set [AlertedRogues] records exactly the pairs alerted: after
    any sequence of beacons and trust updates a pair is in the set if and
    only if it was there before or one of the published alerts is about
    it. *)
Theorem alerted_pairs_are_alerts (events : list Event) (st : State)
    (p : string * string) :
  p ∈ AlertedRogues (fst (run events st)) <->
  p ∈ AlertedRogues st \/ exists a, a ∈ snd (run events st) /\ rogue_pair a = Some p.
Proof.
  revert st. induction events as [|e events IH]; intros st.
  - simpl. split; [by left|]. intros [H | (a & Ha & _)]; [done|].
    by apply elem_of_nil in Ha.
  - rewrite rogue_run_cons. cbn [fst snd]. rewrite IH.
    destruct (step_cases e st) as [(Ha & Hal & _) | [(a & q & Ha & Hq & _ & _ & Hal & _)
                                                   | (s & _ & Ha & Hal & _)]];
      rewrite Ha, Hal.
    + simpl. done.
    + rewrite elem_of_union, elem_of_singleton. split.
      * intros [[-> | H] | (b & Hb & Hp)].
        -- right. exists a. split; [left | done].
        -- by left.
        -- right. exists b. split; [by right | done].
      * intros [H | (b & Hb & Hp)]; [left; by right|].
        apply elem_of_cons in Hb as [-> | Hb].
        -- left. left. congruence.
        -- right. by exists b.
    + simpl. done.
Qed.

(** X12.  Two trust updates in a row have the effect of the single update
    that carries, for each mapping, the one of the second command if it has
    one and else the one of the first; a command with neither key changes
    nothing. *)
Theorem update_composition (U1 U2 : TrustUpdate) (st : State) :
  UpdateTrustedCallback U2 (UpdateTrustedCallback U1 st)
    = UpdateTrustedCallback (later_wins U1 U2) st
  /\ UpdateTrustedCallback {| personal := None; public := None |} st = st.
Proof.
  split.
  - destruct U1 as [[p1|] [q1|]], U2 as [[p2|] [q2|]]; reflexivity.
  - by destruct st.
Qed.

Lemma update_personal (U : TrustUpdate) (st : State) (p : gmap string (list string)) :
  personal U = Some p ->
  PersonalTrusted (UpdateTrustedCallback U st) = (fun v => map lower v) <$> p.
Proof. destruct U as [pp [q|]]; simpl; by intros ->. Qed.

Lemma update_public (U : TrustUpdate) (st : State) (q : gmap string (list string)) :
  public U = Some q ->
  PublicTrusted (UpdateTrustedCallback U st) = (fun v => map GetPrefix v) <$> q.
Proof. destruct U as [[p|] qq]; simpl; by intros ->. Qed.

(** X13.  Trust matching is insensitive to letter case and, for public
    networks, to everything after the third octet.  Right after a trust
    update, a beacon under an SSID of the new personal mapping from an
    address that equals a supplied one up to letter case raises no alert;
    and a beacon under an SSID of the new public mapping (and of no personal
    entry) from an address with the same prefix as a supplied one raises no
    alert. *)
Theorem trusted_after_update_silent (U : TrustUpdate) (st : State)
    (info : option string) (addr2 : string) (addrs : list string) :
  (forall p, personal U = Some p ->
     p !! beacon_ssid info = Some addrs ->
     (exists x, x ∈ addrs /\ lower x = lower addr2) ->
     DetectRogue (Beacon info addr2) (UpdateTrustedCallback U st)
       = (UpdateTrustedCallback U st, []))
  /\ (forall q, public U = Some q ->
        PersonalTrusted (UpdateTrustedCallback U st) !! beacon_ssid info = None ->
        q !! beacon_ssid info = Some addrs ->
        (exists x, x ∈ addrs /\ GetPrefix x = GetPrefix addr2) ->
        DetectRogue (Beacon info addr2) (UpdateTrustedCallback U st)
          = (UpdateTrustedCallback U st, [])).
Proof.
  split.
  - intros p Hp Hssid (x & Hx & Hlow). unfold DetectRogue.
    rewrite (update_personal U st p Hp), lookup_fmap, Hssid. cbn [fmap option_fmap option_map].
    rewrite decide_True; [done|].
    rewrite <- Hlow. apply list_elem_of_In, in_map. by apply list_elem_of_In.
  - intros q Hq Hpers Hssid (x & Hx & Hpre). unfold DetectRogue.
    rewrite Hpers, (update_public U st q Hq), lookup_fmap, Hssid.
    cbn [fmap option_fmap option_map]. cbv zeta.
    rewrite decide_True; [done|].
    rewrite GetPrefix_lower, <- Hpre. apply list_elem_of_In, in_map. by apply list_elem_of_In.
Qed.

(** Worked instance: the example store is installed from lower-case
    addresses; the home access point announces itself in upper case, and a
    café access point shares only the first three octets. *)
Lemma trusted_after_update_silent_witness :
  DetectRogue (Beacon (Some "HomeNet") "AA:BB:CC:DD:EE:FF") example_trust
    = (example_trust, [])
  /\ DetectRogue (Beacon (Some "CafeWifi") "11:22:33:44:55:66") example_trust
     = (example_trust, []).
Proof.
  split.
  - refine (proj1 (trusted_after_update_silent
      {| personal := Some {[ "HomeNet" := ["aa:bb:cc:dd:ee:ff"] ]};
         public := Some {[ "CafeWifi" := ["11:22:33:00:00:01"] ]} |}
      initial (Some "HomeNet") "AA:BB:CC:DD:EE:FF" ["aa:bb:cc:dd:ee:ff"])
      {[ "HomeNet" := ["aa:bb:cc:dd:ee:ff"] ]} _ _ _).
    + reflexivity.
    + reflexivity.
    + exists "aa:bb:cc:dd:ee:ff". split; [left | reflexivity].
  - refine (proj2 (trusted_after_update_silent
      {| personal := Some {[ "HomeNet" := ["aa:bb:cc:dd:ee:ff"] ]};
         public := Some {[ "CafeWifi" := ["11:22:33:00:00:01"] ]} |}
      initial (Some "CafeWifi") "11:22:33:44:55:66" ["11:22:33:00:00:01"])
      {[ "CafeWifi" := ["11:22:33:00:00:01"] ]} _ _ _ _).
    + reflexivity.
    + reflexivity.
    + reflexivity.
    + exists "11:22:33:00:00:01". split; [left | reflexivity].
Defined.

Lemma NormaliseSSID_nul_free (raw : string) : ~ has_nul (NormaliseSSID raw).
Proof.
  unfold NormaliseSSID, has_nul. intros Hin%strip_chars.
  by apply replace_nul_free in Hin.
Qed.

(** X14.  A normalised SSID holds no U+0000 and is unchanged by a further
    [strip].  As the keys of the trust mappings are stored as supplied, a
    key that holds U+0000 or that [strip] would change is never equal to the
    SSID of any beacon, so its entry never takes part in a
    classification. *)
Theorem normalised_ssid_canonical (raw k : string) :
  ~ has_nul (NormaliseSSID raw)
  /\ strip (NormaliseSSID raw) = NormaliseSSID raw
  /\ (has_nul k \/ strip k <> k -> forall info, beacon_ssid info <> k).
Proof.
  split; [apply NormaliseSSID_nul_free|]. split; [apply strip_idem|].
  intros Hk [raw'|] <-; simpl in Hk.
  - destruct Hk as [Hnul | Hstrip].
    + by apply NormaliseSSID_nul_free in Hnul.
    + apply Hstrip. apply strip_idem.
  - destruct Hk as [Hnul | Hstrip].
    + cbv in Hnul. intuition discriminate.
    + by apply Hstrip.
Qed.

(** Worked instance: a key written with a trailing blank, and a beacon
    that announces the SSID with that blank. *)
Lemma normalised_ssid_canonical_witness :
  beacon_ssid (Some "HomeNet ") <> "HomeNet ".
Proof.
  refine (proj2 (proj2 (normalised_ssid_canonical "" "HomeNet ")) _ (Some "HomeNet ")).
  right. vm_compute. discriminate.
Defined.

(** X15.  What [StartSniffing] publishes is the rogue alerts of the trace,
    in order, followed by at most one [unrecognised_aps] alert; that alert
    is present exactly when sniffing did not end with another exception and
    the set of unrecognised SSIDs is not empty. *)
Theorem sniffing_output_shape (events : list Event) (ending : SniffEnd)
    (listing : list string) (st : State) :
  exists tail,
    StartSniffing events ending listing st = snd (run events st) ++ tail
    /\ Forall (fun a => alert_type a = "rogue_ap") (snd (run events st))
    /\ (tail = [] \/ tail = [UnrecognisedAps listing])
    /\ (tail <> [] <->
        ending <> Failed /\ UnrecognisedSSIDs (fst (run events st)) <> ∅).
Proof.
  unfold StartSniffing. pose proof (run_alerts_rogue events st) as Hrogue.
  destruct (run events st) as [st1 alerts]. cbn [fst snd] in *.
  destruct ending.
  - exists (flush listing st1). split; [done|]. split; [done|]. unfold flush.
    destruct (decide (UnrecognisedSSIDs st1 = ∅)) as [He | Hne].
    + split; [by left|]. split; [done|]. intros [_ H]. done.
    + split; [by right|]. split; [done|]. done.
  - exists (flush listing st1). split; [done|]. split; [done|]. unfold flush.
    destruct (decide (UnrecognisedSSIDs st1 = ∅)) as [He | Hne].
    + split; [by left|]. split; [done|]. intros [_ H]. done.
    + split; [by right|]. split; [done|]. done.
  - exists []. rewrite app_nil_r. split; [done|]. split; [done|].
    split; [by left|]. split; [done|]. intros [H _]. done.
Qed.

Lemma replace_absent (old new s : string) :
  occurs old s = false -> replace old new s = s.
Proof.
  unfold replace. induction s as [|c s IH]; [done|].
  cbn [occurs replace_from]. intros [Hp Ho]%orb_false_iff.
  by rewrite Hp, IH.
Qed.

(** X27.  [NormaliseSSID] changes nothing in a string that holds neither
    the three-character sequence its first replacement looks for nor
    U+0000 and that [strip] leaves alone.  The sequence is U+00E2 U+20AC
    U+2122, so a right single quotation mark (U+2019) in an SSID stays as it
    is. *)
Theorem NormaliseSSID_keeps_clean (raw : string) :
  occurs apostrophe_pattern raw = false ->
  occurs (String "000"%char EmptyString) raw = false ->
  strip raw = raw ->
  NormaliseSSID raw = raw.
Proof.
  intros Hpat Hnul Hstrip. unfold NormaliseSSID.
  by rewrite (replace_absent apostrophe_pattern), replace_absent.
Qed.

(** Worked instance: an SSID with a right single quotation mark. *)
Lemma NormaliseSSID_keeps_clean_witness :
  NormaliseSSID "Bob’s Wi-Fi" = "Bob’s Wi-Fi".
Proof.
  refine (NormaliseSSID_keeps_clean "Bob’s Wi-Fi" _ _ _); reflexivity.
Defined.

Lemma step_unrecognised (e : Event) (st : State) (s : string) :
  s ∈ UnrecognisedSSIDs (fst (step e st)) ->
  s ∈ UnrecognisedSSIDs st \/ (s <> "" /\ exists x, s = NormaliseSSID x).
Proof.
  destruct e as [[info addr2|]|Data]; cbn [step]; [| by left |].
  - unfold DetectRogue.
    destruct (PersonalTrusted st !! beacon_ssid info) as [AllowedBSSIDs|].
    + destruct (decide (lower addr2 ∈ AllowedBSSIDs)); [by left|].
      destruct (decide ((beacon_ssid info, lower addr2) ∈ AlertedRogues st)); by left.
    + destruct (PublicTrusted st !! beacon_ssid info) as [AllowedPrefixes|]; cbv zeta.
      * destruct (decide (GetPrefix (lower addr2) ∈ AllowedPrefixes)); [by left|].
        destruct (decide ((beacon_ssid info, lower addr2) ∈ AlertedRogues st)); by left.
      * destruct (decide (NormaliseSSID (beacon_ssid info) = "")); [by left|].
        cbn. intros [->%elem_of_singleton | H]%elem_of_union; [|by left].
        right. split; [done|]. by eexists.
  - destruct Data as [[p|] [q|]]; by left.
Qed.

(** X28.  Every SSID the classifier records as unrecognised is a
    normalised one: if the members of [UnrecognisedSSIDs] are non-empty,
    free of U+0000 and unchanged by [strip] to begin with (the set starts
    empty), they are so after any sequence of beacons and trust updates, and
    so is every SSID listed in the alert published at shutdown. *)
Theorem unrecognised_are_canonical (events : list Event) (ending : SniffEnd)
    (listing : list string) (st : State) :
  (forall s, s ∈ UnrecognisedSSIDs st -> canonical_ssid s) ->
  enumerates listing (UnrecognisedSSIDs (fst (run events st))) ->
  (forall s, s ∈ UnrecognisedSSIDs (fst (run events st)) -> canonical_ssid s)
  /\ (forall s, s ∈ listing -> canonical_ssid s).
Proof.
  intros Hst Henum.
  assert (Hinv : forall s, s ∈ UnrecognisedSSIDs (fst (run events st)) -> canonical_ssid s).
  { clear Henum. revert st Hst. induction events as [|e events IH]; intros st Hst; [done|].
    rewrite rogue_run_cons. cbn [fst]. apply IH.
    intros s [Hs | (Hne & x & ->)]%step_unrecognised; [by apply Hst|].
    split; [done|]. split; [apply NormaliseSSID_nul_free | apply strip_idem]. }
  split; [done|]. intros s Hs. apply Hinv. by apply (enumerates_elem_of _ _ _ Henum).
Qed.

(** Worked instance: two unknown networks from the initial state. *)
Lemma unrecognised_are_canonical_witness :
  canonical_ssid "Unknown1".
Proof.
  refine (proj2 (unrecognised_are_canonical two_unknown Returned
    ["Unknown2"; "Unknown1"] initial _ _) "Unknown1" _).
  - intros s Hs. by apply elem_of_empty in Hs.
  - unfold enumerates.
    assert (elements (UnrecognisedSSIDs (fst (run two_unknown initial)))
            = ["Unknown1"; "Unknown2"]) as -> by reflexivity.
    apply perm_swap.
  - right. left.
Defined.

End RogueMore.


(** ** Further properties of the block coordinator *)

Module BlockMore.
Import MQTTHelper DeauthDetection.

(** X16.  A successful block makes the detector drop the frames sent in
    the target's name: with the block records [BlockRogueAP] leaves, a
    de-auth frame from the target handled less than 30 s after the recorded
    time changes nothing and raises nothing, towards any destination; from
    30 s on it is handled as without block records.  The records of all
    other addresses, also of one that differs from the target only in letter
    case, are what they were. *)
Theorem block_suppresses_target_frames (Exn : Type)
    (sendp : DeauthFrame -> string -> nat -> option Exn)
    (now : Q) (target iface : string) (n : nat) (B : gmap string Q) :
  sendp {| addr1 := "ff:ff:ff:ff:ff:ff"; addr2 := target;
           addr3 := target; reason := 7 |} iface n = None ->
  (forall t D st, (t - now < 30)%Q ->
     DetectDeauth (snd (BlockRogueAP Exn sendp now target iface n B)) t
       (Deauth D target) st = (st, []))
  /\ (forall t D st, (now + 30 <= t)%Q ->
        DetectDeauth (snd (BlockRogueAP Exn sendp now target iface n B)) t
          (Deauth D target) st
        = DetectDeauth ∅ t (Deauth D target) st)
  /\ (forall A t, A <> target ->
        recently_blocked (snd (BlockRogueAP Exn sendp now target iface n B)) A t
        = recently_blocked B A t).
Proof.
  intros Hsend. unfold BlockRogueAP. rewrite Hsend. cbn [snd].
  split; [|split].
  - intros t D st Hlt. unfold DetectDeauth.
    assert (Hb : recently_blocked (<[target:=now]> B) target t = true).
    { apply (DeauthFacts.recently_blocked_iff _ _ now); [apply lookup_insert_eq | done]. }
    by rewrite Hb.
  - intros t D st Hge. unfold DetectDeauth.
    assert (Hb : recently_blocked (<[target:=now]> B) target t = false).
    { apply not_true_iff_false.
      rewrite (DeauthFacts.recently_blocked_iff _ _ now) by apply lookup_insert_eq. lra. }
    rewrite Hb. unfold recently_blocked. by rewrite lookup_empty.
  - intros A t Hne. unfold recently_blocked. by rewrite lookup_insert_ne.
Qed.

(** Worked instance: a block at 100 s on "wlan1"; a frame in the target's
    name at 110 s is dropped. *)
Lemma block_suppresses_target_frames_witness :
  DetectDeauth (snd (BlockRogueAP string example_sendp 100 "66:77:88:99:aa:bb" "wlan1" 10 ∅))
    110 (Deauth "02:00:00:00:00:01" "66:77:88:99:aa:bb") initial = (initial, []).
Proof.
  refine (proj1 (block_suppresses_target_frames string example_sendp 100
    "66:77:88:99:aa:bb" "wlan1" 10 ∅ _) 110%Q "02:00:00:00:00:01" initial _).
  - reflexivity.
  - reflexivity.
Defined.

(** X17.  A block command changes no block record except possibly that of
    its target.  Without [target_bssid], or with an empty one, nothing is
    injected, nothing is recorded and nothing is raised, whatever the
    injection primitive would do; with a target the command is the block of
    that target on the interface and with the count it names, "wlan1" and 10
    when it names none. *)
Theorem block_command_effect (Exn : Type)
    (sendp : DeauthFrame -> string -> nat -> option Exn)
    (now : Q) (Data : BlockCommand) (B : gmap string Q) :
  (forall k, target_bssid Data <> Some k ->
     snd (BlockCallback Exn sendp now Data B) !! k = B !! k)
  /\ (target_bssid Data = None \/ target_bssid Data = Some "" ->
      BlockCallback Exn sendp now Data B = (Ok tt, B))
  /\ (forall T, target_bssid Data = Some T -> T <> "" ->
        BlockCallback Exn sendp now Data B
        = BlockRogueAP Exn sendp now T (default "wlan1" (interface Data))
            (default 10%nat (count Data)) B).
Proof.
  unfold BlockCallback. split; [|split].
  - intros k Hk. destruct (target_bssid Data) as [T|]; [|done].
    destruct (decide (T = "")); [done|]. unfold BlockRogueAP.
    destruct (sendp _ _ _); [done|]. cbn [snd].
    apply lookup_insert_ne. congruence.
  - intros [-> | ->]; [done|]. by rewrite decide_True.
  - intros T -> HT. by rewrite decide_False.
Qed.

(** Worked instance: a command that names only its target is sent on
    "wlan1"; a command without target does nothing. *)
Lemma block_command_effect_witness :
  BlockCallback string example_sendp 100
    {| target_bssid := Some "66:77:88:99:aa:bb"; interface := None; count := None |} ∅
    = BlockRogueAP string example_sendp 100 "66:77:88:99:aa:bb"
        (default "wlan1" None) (default 10%nat None) ∅
  /\ BlockCallback string example_sendp 100
       {| target_bssid := None; interface := Some "wlan9"; count := None |} ∅
     = (Ok tt, ∅).
Proof.
  split.
  - refine (proj2 (proj2 (block_command_effect string example_sendp 100
      {| target_bssid := Some "66:77:88:99:aa:bb"; interface := None; count := None |} ∅))
      "66:77:88:99:aa:bb" _ _).
    + reflexivity.
    + discriminate.
  - refine (proj1 (proj2 (block_command_effect string example_sendp 100
      {| target_bssid := None; interface := Some "wlan9"; count := None |} ∅)) _).
    left. reflexivity.
Defined.

End BlockMore.

(** ** The password heuristic *)

Module PasswordFacts.
Import PasswordAssessment.

Section Assess.
Variable other_digit : string -> bool.

(** X18.  A password is rated "Strong" exactly when it has at least 16
    characters and holds a lowercase letter, an uppercase letter, a digit
    and a special character; a "Strong" password gets no recommendation.
    The rating is always one of "Strong", "Moderate" and "Weak". *)
Theorem strong_iff_long_and_all_classes (PSK : string) :
  (fst (AssessComplexity other_digit PSK) = "Strong" <->
   (16 <= py_len PSK)%nat /\ all_classes other_digit PSK = true)
  /\ (fst (AssessComplexity other_digit PSK) = "Strong" ->
      snd (AssessComplexity other_digit PSK) = [])
  /\ (fst (AssessComplexity other_digit PSK) = "Strong"
      \/ fst (AssessComplexity other_digit PSK) = "Moderate"
      \/ fst (AssessComplexity other_digit PSK) = "Weak").
Proof.
  unfold AssessComplexity, all_classes.
  destruct (Nat.leb_spec 16 (py_len PSK)) as [H16 | H16];
    [|destruct (Nat.leb_spec 12 (py_len PSK)) as [H12 | H12]];
    destruct (search_class lowercase_class PSK),
             (search_class uppercase_class PSK),
             (search_digit other_digit PSK),
             (search_class special_class PSK);
    cbn; repeat split; try (intros; discriminate); try done; try lia;
    try (intros [? ?]; (lia || discriminate)); auto.
Qed.

(** X19.  The recommendations follow the failed checks: there are at most
    five; there is none exactly when the password has at least 12
    characters and holds all four character classes, so that a password of
    12 to 15 characters with all classes is rated "Moderate" without any
    recommendation; a "Weak" password gets at least two recommendations and
    a "Moderate" one at most two. *)
Theorem recommendations_follow_checks (PSK : string) :
  (length (snd (AssessComplexity other_digit PSK)) <= 5)%nat
  /\ (snd (AssessComplexity other_digit PSK) = [] <->
      (12 <= py_len PSK)%nat /\ all_classes other_digit PSK = true)
  /\ ((12 <= py_len PSK < 16)%nat -> all_classes other_digit PSK = true ->
      AssessComplexity other_digit PSK = ("Moderate", []))
  /\ (fst (AssessComplexity other_digit PSK) = "Weak" ->
      (2 <= length (snd (AssessComplexity other_digit PSK)))%nat)
  /\ (fst (AssessComplexity other_digit PSK) = "Moderate" ->
      (length (snd (AssessComplexity other_digit PSK)) <= 2)%nat).
Proof.
  unfold AssessComplexity, all_classes.
  destruct (Nat.leb_spec 16 (py_len PSK)) as [H16 | H16];
    [|destruct (Nat.leb_spec 12 (py_len PSK)) as [H12 | H12]];
    destruct (search_class lowercase_class PSK),
             (search_class uppercase_class PSK),
             (search_digit other_digit PSK),
             (search_class special_class PSK);
    cbn; repeat split; try (intros; discriminate); try done; try lia;
    try (intros [? ?]; (lia || discriminate)); try (intros; lia); auto.
Qed.

End Assess.

(** Worked instance: a password of twelve characters with all classes. *)
Lemma recommendations_follow_checks_witness :
  AssessComplexity no_other_digit "Abcdefgh1!xy" = ("Moderate", []).
Proof.
  refine (proj1 (proj2 (proj2 (recommendations_follow_checks no_other_digit
    "Abcdefgh1!xy"))) _ _).
  - vm_compute. lia.
  - reflexivity.
Defined.

(** Worked instance: a password of eighteen characters with all classes. *)
Lemma strong_iff_long_and_all_classes_witness :
  fst (AssessComplexity no_other_digit "Tr0ub4dor&3xyzABCD") = "Strong".
Proof.
  refine (proj2 (proj1 (strong_iff_long_and_all_classes no_other_digit
    "Tr0ub4dor&3xyzABCD")) _).
  split; [vm_compute; lia | reflexivity].
Defined.

End PasswordFacts.


(** ** The configuration file written and read back *)

Module ConfigFacts.
Import RogueObservations StringFacts WiFiConfig.

Lemma chars_app (a b : string) :
  String.list_ascii_of_string (a +:+ b)
  = String.list_ascii_of_string a ++ String.list_ascii_of_string b.
Proof. induction a as [|c a IH]; simpl; [done|]. by rewrite IH. Qed.

Lemma string_of_chars_app (l1 l2 : list ascii) :
  String.string_of_list_ascii (l1 ++ l2)
  = String.string_of_list_ascii l1 +:+ String.string_of_list_ascii l2.
Proof. induction l1 as [|c l1 IH]; simpl; [done|]. by rewrite IH. Qed.

Lemma bytes_of_app (a b : string) : bytes_of (a +:+ b) = bytes_of a ++ bytes_of b.
Proof. unfold bytes_of. by rewrite chars_app, map_app. Qed.

Lemma of_bytes_app (l1 l2 : list nat) : of_bytes (l1 ++ l2) = of_bytes l1 +:+ of_bytes l2.
Proof. unfold of_bytes. by rewrite map_app, string_of_chars_app. Qed.

Lemma of_bytes_of (s : string) : of_bytes (bytes_of s) = s.
Proof.
  unfold of_bytes, bytes_of. rewrite map_map.
  rewrite (map_ext _ (fun c => c)) by apply ascii_nat_embedding.
  rewrite map_id. apply String.string_of_list_ascii_of_string.
Qed.

Lemma space2_ascii (a b : nat) : (a < 128)%nat -> space2 a b = false.
Proof.
  intros Ha. unfold space2. destruct (Nat.eqb_spec a 194); [lia | done].
Qed.

Lemma space3_ascii (a b c : nat) : (a < 128)%nat -> space3 a b c = false.
Proof.
  intros Ha. unfold space3.
  destruct (Nat.eqb_spec a 225); [lia|].
  destruct (Nat.eqb_spec a 226); [lia|].
  destruct (Nat.eqb_spec a 227); [lia | done].
Qed.

Lemma strip_front_solid (m : list nat) : solid m -> strip_front true m = m.
Proof.
  intros [Hall Hhd]. apply strip_front_fixed.
  destruct m as [|a [|b [|c m]]]; [done|..]; simpl; rewrite Hhd; [done|..].
  - apply Forall_cons in Hall as [_ [Hb _]%Forall_cons].
    by rewrite space2_ascii.
  - apply Forall_cons in Hall as [_ [Hb [Hc _]%Forall_cons]%Forall_cons].
    by rewrite space2_ascii, space3_ascii.
Qed.

Lemma strip_front_app_solid (x m : list nat) :
  solid m -> strip_front true (x ++ m) = strip_front true x ++ m.
Proof.
  intros Hm. pose proof Hm as [Hall Hhd].
  induction x as [x IH] using (induction_ltof1 _ (@length nat)). unfold ltof in IH.
  destruct x as [|a x1]; [by apply strip_front_solid|].
  cbn [app strip_front].
  destruct (space1 a); [apply IH; simpl; lia|].
  destruct x1 as [|b x2].
  { destruct m as [|m0 m1]; [done|]. cbn [app].
    apply Forall_cons in Hall as [Hm0 Hall].
    rewrite space2_ascii by done.
    destruct m1 as [|m1 m2]; [done|].
    apply Forall_cons in Hall as [Hm1 _]. by rewrite space3_ascii. }
  cbn [app].
  destruct (space2 b a); [apply IH; simpl; lia|].
  destruct x2 as [|c x3].
  { destruct m as [|m0 m1]; [done|]. cbn [app].
    apply Forall_cons in Hall as [Hm0 _]. by rewrite space3_ascii. }
  cbn [app].
  destruct (space3 c b a); [apply IH; simpl; lia | done].
Qed.

(** Stripping a line of the configuration file: a key that starts the
    line, a value, and the line feed. *)
Lemma strip_key_line (key x : string) :
  starts_space false (bytes_of key) = false ->
  (3 <= length (bytes_of key))%nat ->
  solid (rev (bytes_of key)) ->
  strip (key +:+ x +:+ String LF EmptyString) = key +:+ rstrip x.
Proof.
  intros Hstart Hlen Hsolid. unfold strip, rstrip.
  rewrite !bytes_of_app.
  rewrite (strip_front_fixed false).
  2:{ destruct (bytes_of key) as [|a [|b [|c k]]]; simpl in Hlen; try lia. exact Hstart. }
  change (bytes_of (String LF EmptyString)) with [10%nat].
  rewrite !rev_app_distr. cbn [rev app strip_front space1 Nat.leb andb orb].
  rewrite strip_front_app_solid by done.
  rewrite rev_app_distr, rev_involutive, of_bytes_app, of_bytes_of. done.
Qed.

Lemma split_lines_line (x rest cur : list ascii) :
  ~ In LF x -> ~ In CR x ->
  split_lines false cur (x ++ LF :: rest)
  = (rev cur ++ x ++ [LF]) :: split_lines false [] rest.
Proof.
  revert cur. induction x as [|c x IH]; intros cur Hlf Hcr.
  - simpl. done.
  - cbn [app split_lines].
    destruct (Ascii.eqb_spec c LF) as [-> | _]; [exfalso; apply Hlf; by left|].
    destruct (Ascii.eqb_spec c CR) as [-> | _]; [exfalso; apply Hcr; by left|].
    rewrite IH; [| intros H; apply Hlf; by right | intros H; apply Hcr; by right].
    simpl. by rewrite <- app_assoc.
Qed.

Lemma chars_config (ssid password : string) :
  String.list_ascii_of_string (config_text ssid password)
  = (String.list_ascii_of_string "ssid=" ++ String.list_ascii_of_string ssid)
    ++ LF :: ((String.list_ascii_of_string "password="
               ++ String.list_ascii_of_string password) ++ LF :: []).
Proof.
  unfold config_text.
  rewrite (chars_app "ssid="), (chars_app ssid).
  change (String.list_ascii_of_string
            (String LF ("password=" +:+ password +:+ String LF EmptyString)))
    with (LF :: String.list_ascii_of_string
                  ("password=" +:+ password +:+ String LF EmptyString)).
  rewrite (chars_app "password="), (chars_app password).
  change (String.list_ascii_of_string (String LF EmptyString)) with [LF].
  by rewrite !app_assoc.
Qed.

Lemma key_chars_one_line (key value : string) :
  ~ In LF (String.list_ascii_of_string key) ->
  ~ In CR (String.list_ascii_of_string key) ->
  one_line value ->
  ~ In LF (String.list_ascii_of_string key ++ String.list_ascii_of_string value)
  /\ ~ In CR (String.list_ascii_of_string key ++ String.list_ascii_of_string value).
Proof.
  intros Hk1 Hk2 [Hv1 Hv2]. split; intros [H | H]%in_app_or; done.
Qed.

Lemma file_lines_config (ssid password : string) :
  one_line ssid -> one_line password ->
  file_lines (config_text ssid password)
  = ["ssid=" +:+ ssid +:+ String LF EmptyString;
     "password=" +:+ password +:+ String LF EmptyString].
Proof.
  intros Hs Hp. unfold file_lines. rewrite chars_config.
  destruct (key_chars_one_line "ssid=" ssid) as [Hs1 Hs2]; [| |done|].
  { cbv. intuition discriminate. }
  { cbv. intuition discriminate. }
  destruct (key_chars_one_line "password=" password) as [Hp1 Hp2]; [| |done|].
  { cbv. intuition discriminate. }
  { cbv. intuition discriminate. }
  rewrite split_lines_line by done.
  rewrite split_lines_line by done.
  cbn [split_lines map rev app].
  rewrite !string_of_chars_app, !String.string_of_list_ascii_of_string.
  done.
Qed.

Lemma prefix_key (key r : string) : String.prefix key (key +:+ r) = true.
Proof.
  induction key as [|c key IH]; simpl; [by destruct r|].
  destruct (ascii_dec c c); [exact IH | done].
Qed.

Lemma read_line_ssid (acc : option string * option string) (x : string) :
  read_line acc ("ssid=" +:+ x +:+ String LF EmptyString) = (Some (rstrip x), snd acc).
Proof.
  destruct acc as [a b]. unfold read_line.
  rewrite (strip_key_line "ssid=").
  - by rewrite prefix_key.
  - reflexivity.
  - simpl. lia.
  - split; [repeat constructor | reflexivity].
Qed.

Lemma read_line_password (acc : option string * option string) (x : string) :
  read_line acc ("password=" +:+ x +:+ String LF EmptyString) = (fst acc, Some (rstrip x)).
Proof.
  destruct acc as [a b]. unfold read_line.
  rewrite (strip_key_line "password=").
  - change (String.prefix "ssid=" ("password=" +:+ rstrip x)) with false.
    by rewrite prefix_key.
  - reflexivity.
  - simpl. lia.
  - split; [repeat constructor | reflexivity].
Qed.

Lemma read_config_text (ssid password : string) :
  one_line ssid -> one_line password ->
  foldl read_line (None, None) (file_lines (config_text ssid password))
  = (Some (rstrip ssid), Some (rstrip password)).
Proof.
  intros Hs Hp. rewrite file_lines_config by done. cbn [foldl].
  by rewrite read_line_ssid, read_line_password.
Qed.

Lemma rstrip_strip (s : string) : rstrip (strip s) = strip s.
Proof.
  unfold rstrip. rewrite strip_unfold. unfold strip_bytes.
  destruct (strip_front_suffix true (rev (strip_front false (bytes_of s))))
    as (pre & Hrev & Hz).
  set (z := strip_front true (rev (strip_front false (bytes_of s)))) in *.
  rewrite bytes_of_bytes.
  - rewrite rev_involutive. by rewrite (strip_front_fixed true z).
  - apply Forall_forall. intros n Hn.
    assert (Hin : n ∈ bytes_of s).
    { apply (strip_bytes_subset (bytes_of s)). exact Hn. }
    pose proof (bytes_of_bound s) as Hb. rewrite Forall_forall in Hb. by apply Hb.
Qed.

(** X22.  What [ConfigureWiFi] saves, [ReadWiFiConfig] reads back, up to
    trailing white space of the password.  When the credentials pass the
    check of the API and neither the normalised SSID nor the password holds
    a line terminator, reading the saved file yields the normalised SSID and
    the password without its trailing white space; it ends the programme
    (no result) exactly when the normalised SSID is empty or the password is
    nothing but white space.  A password without trailing white space is
    therefore read back unchanged. *)
Theorem credentials_read_back (ssid password text : string) :
  ConfigureWiFi_file (Some ssid) (Some password) = Some text ->
  one_line (strip (replace curly_apostrophe "'" ssid)) ->
  one_line password ->
  ReadWiFiConfig (Some text)
  = (if decide (strip (replace curly_apostrophe "'" ssid) = "") then None
     else if decide (rstrip password = "") then None
     else Some (strip (replace curly_apostrophe "'" ssid), rstrip password))
  /\ (strip (replace curly_apostrophe "'" ssid) <> "" -> rstrip password = password ->
      ReadWiFiConfig (Some text)
      = Some (strip (replace curly_apostrophe "'" ssid), password)).
Proof.
  intros Hsaved Hs Hp. unfold ConfigureWiFi_file in Hsaved.
  destruct (decide (ssid = "")); [done|]. destruct (decide (password = "")); [done|].
  injection Hsaved as <-.
  assert (Hread : ReadWiFiConfig
                    (Some (config_text (strip (replace curly_apostrophe "'" ssid)) password))
                  = (if decide (strip (replace curly_apostrophe "'" ssid) = "") then None
                     else if decide (rstrip password = "") then None
                     else Some (strip (replace curly_apostrophe "'" ssid), rstrip password))).
  { unfold ReadWiFiConfig. rewrite read_config_text by done. by rewrite rstrip_strip. }
  split; [done|]. intros Hne Hfix. rewrite Hread, Hfix.
  rewrite decide_False by done. by rewrite decide_False.
Qed.

(** Worked instance: an SSID sent with surrounding blanks and a password
    without trailing white space. *)
Lemma credentials_read_back_witness :
  ReadWiFiConfig
    (Some (config_text (strip (replace curly_apostrophe "'" " Home Net ")) "pass word"))
  = Some (strip (replace curly_apostrophe "'" " Home Net "), "pass word").
Proof.
  refine (proj2 (credentials_read_back " Home Net " "pass word"
    (config_text (strip (replace curly_apostrophe "'" " Home Net ")) "pass word")
    _ _ _) _ _).
  - reflexivity.
  - split; intros H; vm_compute in H; intuition discriminate.
  - split; intros H; vm_compute in H; intuition discriminate.
  - vm_compute. discriminate.
  - reflexivity.
Defined.

End ConfigFacts.


(** ** Registering callbacks and dispatching *)

Module MQTTFacts.
Import MQTTDispatch.

Lemma dict_get_set (k k' : string) (v : Callback) (d : list (string * Callback)) :
  dict_get k' (dict_set k v d) = if decide (k' = k) then Some v else dict_get k' d.
Proof.
  induction d as [|[k0 v0] d IH]; simpl.
  - destruct (decide (k = k')) as [-> | Hne].
    + by rewrite decide_True.
    + by rewrite decide_False by congruence.
  - destruct (decide (k0 = k)) as [-> | Hne]; simpl.
    + destruct (decide (k = k')) as [-> | Hne'].
      * by rewrite decide_True.
      * by rewrite decide_False by congruence.
    + destruct (decide (k0 = k')) as [-> | Hne'].
      * by rewrite decide_False.
      * apply IH.
Qed.

Lemma dict_get_None (k : string) (d : list (string * Callback)) :
  dict_get k d = None <-> k ∉ map fst d.
Proof.
  induction d as [|[k0 v0] d IH]; simpl.
  - split; [intros _; apply not_elem_of_nil | done].
  - destruct (decide (k0 = k)) as [-> | Hne].
    + split; [done|]. intros H. exfalso. apply H. left.
    + rewrite IH. split.
      * intros H [Heq | Hin]%elem_of_cons; [congruence | done].
      * intros H Hin. apply H. by right.
Qed.

(** X23.  A message is handed to the callback registered last for its
    topic, with the decoded JSON value or, when the payload is not JSON, the
    payload text; registering a callback changes the dispatch of no other
    topic, and a message on a topic without callback is dropped.  After
    start-up the block, assessment and trust-update topics reach their
    callbacks. *)
Theorem dispatch_latest_registration (Json : Type) (loads : string -> option Json)
    (Topic : string) (Cb : Callback) (h : Helper) (topic Payload : string) :
  OnMessage Json loads topic Payload (subscribe Topic Cb h)
    = (if decide (topic = Topic) then Some (Cb, message_data Json loads Payload)
       else OnMessage Json loads topic Payload h)
  /\ (topic ∉ map fst (Callbacks h) -> OnMessage Json loads topic Payload h = None)
  /\ OnMessage Json loads "commands/block" Payload started
     = Some (CbBlock, message_data Json loads Payload)
  /\ OnMessage Json loads "commands/update_trusted" Payload started
     = Some (CbUpdateTrusted, message_data Json loads Payload)
  /\ OnMessage Json loads "commands/run_assessment" Payload started
     = Some (CbRunAssessment, message_data Json loads Payload).
Proof.
  split; [|split; [|done]].
  - unfold OnMessage, subscribe. cbn [Callbacks]. rewrite dict_get_set.
    by destruct (decide (topic = Topic)).
  - intros Hout. unfold OnMessage. apply dict_get_None in Hout. by rewrite Hout.
Qed.

(** Worked instance: an alert topic has no callback. *)
Lemma dispatch_latest_registration_witness :
  OnMessage string (fun _ => None) "alerts/deauth" "{}" started = None.
Proof.
  refine (proj1 (proj2 (dispatch_latest_registration string (fun _ => None)
    "commands/block" CbBlock started "alerts/deauth" "{}")) _).
  intros H. vm_compute in H.
  repeat (apply elem_of_cons in H as [H | H]; [discriminate H|]).
  by apply elem_of_nil in H.
Defined.



End MQTTFacts.

(** ** Reading the scan output *)

Module CSVFacts.
Import ProtocolAssessment.

Lemma ParseCSV_snoc (rows : list (list string)) (Row : list string) :
  ParseCSV (rows ++ [Row]) = parse_row (ParseCSV rows) Row.
Proof. unfold ParseCSV. by rewrite foldl_app. Qed.

Lemma parse_row_keys (Networks : list (string * NetworkInfo)) (Row : list string)
    (k : string) :
  k ∈ map fst (parse_row Networks Row) <->
  k ∈ map fst Networks \/ (usable_row Row = true /\ row_essid Row = k /\ k <> "").
Proof.
  unfold parse_row. destruct (usable_row Row).
  - cbv zeta. destruct (decide _) as [[Hne Hnew] | Hno].
    + rewrite map_app, elem_of_app. cbn. rewrite list_elem_of_singleton. split.
      * intros [H | ->]; [by left | by right].
      * intros [H | (_ & <- & _)]; [by left | by right].
    + split; [by left|]. intros [H | (_ & <- & Hk)]; [done|].
      destruct (decide (row_essid Row ∈ map fst Networks)); [done|].
      exfalso. by apply Hno.
  - split; [by left|]. intros [H | (H & _)]; [done | discriminate H].
Qed.

Lemma ParseCSV_keys (rows : list (list string)) (k : string) :
  k ∈ map fst (ParseCSV rows) <->
  exists r, r ∈ rows /\ usable_row r = true /\ row_essid r = k /\ k <> "".
Proof.
  induction rows as [|R rs IHr] using rev_ind.
  - split; [intros H; by apply elem_of_nil in H|].
    intros (r & Hr & _). by apply elem_of_nil in Hr.
  - rewrite ParseCSV_snoc, parse_row_keys, IHr. split.
    + intros [(r & Hr & H) | H].
      * exists r. split; [apply elem_of_app; by left | done].
      * exists R. split; [apply elem_of_app; right; left | done].
    + intros (r & [Hr | Hr]%elem_of_app & H).
      * left. by exists r.
      * apply list_elem_of_singleton in Hr as ->. by right.
Qed.

(** X25.  [ParseCSV] keeps, for every network name, the first usable row
    that carries it: the names of the result are distinct and not empty, and
    a name is paired with given settings exactly when some row with at least
    14 columns and a hardware address in its first column carries that name
    with those settings and no earlier such row carries the name.  Rows that
    are too short or whose first column is no address contribute nothing. *)
Theorem ParseCSV_first_row_wins (rows : list (list string)) (k : string)
    (info : NetworkInfo) :
  NoDup (map fst (ParseCSV rows))
  /\ ("" ∉ map fst (ParseCSV rows))
  /\ ((k, info) ∈ ParseCSV rows <->
      exists before Row after,
        rows = before ++ Row :: after
        /\ usable_row Row = true /\ row_essid Row = k /\ row_info Row = info /\ k <> ""
        /\ forall r, r ∈ before -> ~ (usable_row r = true /\ row_essid r = k)).
Proof.
  revert k info. induction rows as [|Row rows IH] using rev_ind; intros k info.
  - split; [constructor|]. split; [apply not_elem_of_nil|]. split.
    + intros H. by apply elem_of_nil in H.
    + intros (before & r & after & Heq & _). by destruct before.
  - rewrite ParseCSV_snoc.
    destruct (IH k info) as (Hnd & Hempty & _).
    pose proof (ParseCSV_keys rows) as Hkeys.
    unfold parse_row. destruct (usable_row Row) eqn:Hus; cbv zeta.
    + destruct (decide _) as [[Hne Hnew] | Hno].
      * split; [|split].
        -- rewrite map_app. apply NoDup_app. split; [done|]. split.
           ++ intros x Hx Hx'. apply list_elem_of_singleton in Hx' as ->. done.
           ++ apply NoDup_singleton.
        -- rewrite map_app, elem_of_app. intros [H | H]; [done|].
           apply list_elem_of_singleton in H. done.
        -- rewrite elem_of_app, list_elem_of_singleton. split.
           ++ intros [Hin | [= -> ->]].
              ** apply (IH k info) in Hin as (b & r & a & -> & H).
                 exists b, r, (a ++ [Row]). split; [by rewrite <- app_assoc | done].
              ** exists rows, Row, []. split; [done|]. repeat split; try done.
                 intros r Hr [Hu He]. apply Hnew, Hkeys. by exists r.
           ++ intros (b & r & a & Heq & Hu & He & Hi & Hk & Hfirst).
              destruct a as [|a0 a _] using rev_ind.
              ** apply app_inj_tail in Heq as [-> ->]. right. by rewrite <- He, <- Hi.
              ** rewrite app_comm_cons, app_assoc in Heq.
                 apply app_inj_tail in Heq as [-> ->]. left.
                 apply IH. by exists b, r, a.
      * split; [done|]. split; [done|]. split.
        -- intros Hin. apply (IH k info) in Hin as (b & r & a & -> & H).
           exists b, r, (a ++ [Row]). split; [by rewrite <- app_assoc | done].
        -- intros (b & r & a & Heq & Hu & He & Hi & Hk & Hfirst).
           destruct a as [|a0 a _] using rev_ind.
           ** apply app_inj_tail in Heq as [-> ->]. exfalso.
              destruct (decide (row_essid r ∈ map fst (ParseCSV b))) as [Hin | Hout].
              --- apply Hkeys in Hin as (r' & Hr' & Hu' & He' & _).
                  apply (Hfirst r' Hr'). split; [done | congruence].
              --- apply Hno. split; [congruence | done].
           ** rewrite app_comm_cons, app_assoc in Heq.
              apply app_inj_tail in Heq as [-> ->].
              apply IH. by exists b, r, a.
    + split; [done|]. split; [done|]. split.
      * intros Hin. apply (IH k info) in Hin as (b & r & a & -> & H).
        exists b, r, (a ++ [Row]). split; [by rewrite <- app_assoc | done].
      * intros (b & r & a & Heq & Hu & He & Hi & Hk & Hfirst).
        destruct a as [|a0 a _] using rev_ind.
        -- apply app_inj_tail in Heq as [-> ->]. congruence.
        -- rewrite app_comm_cons, app_assoc in Heq.
           apply app_inj_tail in Heq as [-> ->].
           apply IH. by exists b, r, a.
Qed.

End CSVFacts.
